(** * go-mixpanel: request signing, request construction and response decoding

    A shallow embedding of [mixpanel.go].  Go strings are byte strings, so
    they are Rocq [string]s (lists of 8-bit [ascii]); [map[string]string] is
    a [gmap string string]; [int64] is [Z] with its wrap-around written out.
    The Go standard library functions the client calls are modelled first
    (section "Go runtime"), then the client itself, then the theorems. *)

From Stdlib Require Import ZArith Strings.String Strings.Ascii List Sorting.Sorted.
From stdpp Require Import base gmap strings list sorting pretty.

Local Open Scope Z_scope.
Local Open Scope string_scope.

(* ===================================================================== *)
(** * Go runtime: the standard library functions used by the client      *)
(* ===================================================================== *)

(** ** Bytes *)

Definition byte_of_ascii (c : ascii) : Z := Z.of_N (N_of_ascii c).
Definition ascii_of_byte (b : Z) : ascii := ascii_of_N (Z.to_N (b mod 256)).

Definition bytes_of_string (s : string) : list Z :=
  byte_of_ascii <$> list_ascii_of_string s.
Definition string_of_bytes (bs : list Z) : string :=
  string_of_list_ascii (ascii_of_byte <$> bs).

(** ** crypto/md5 (RFC 1321), on 32-bit words held in [Z] *)

Definition wrap32 (x : Z) : Z := x mod 2 ^ 32.
Definition add32 (x y : Z) : Z := wrap32 (x + y).
Definition not32 (x : Z) : Z := Z.lxor x 0xffffffff.
Definition rotl32 (x : Z) (n : Z) : Z :=
  Z.lor (wrap32 (Z.shiftl x n)) (Z.shiftr x (32 - n)).

Definition md5_K : list Z := [
  0xd76aa478; 0xe8c7b756; 0x242070db; 0xc1bdceee;
  0xf57c0faf; 0x4787c62a; 0xa8304613; 0xfd469501;
  0x698098d8; 0x8b44f7af; 0xffff5bb1; 0x895cd7be;
  0x6b901122; 0xfd987193; 0xa679438e; 0x49b40821;
  0xf61e2562; 0xc040b340; 0x265e5a51; 0xe9b6c7aa;
  0xd62f105d; 0x02441453; 0xd8a1e681; 0xe7d3fbc8;
  0x21e1cde6; 0xc33707d6; 0xf4d50d87; 0x455a14ed;
  0xa9e3e905; 0xfcefa3f8; 0x676f02d9; 0x8d2a4c8a;
  0xfffa3942; 0x8771f681; 0x6d9d6122; 0xfde5380c;
  0xa4beea44; 0x4bdecfa9; 0xf6bb4b60; 0xbebfbc70;
  0x289b7ec6; 0xeaa127fa; 0xd4ef3085; 0x04881d05;
  0xd9d4d039; 0xe6db99e5; 0x1fa27cf8; 0xc4ac5665;
  0xf4292244; 0x432aff97; 0xab9423a7; 0xfc93a039;
  0x655b59c3; 0x8f0ccc92; 0xffeff47d; 0x85845dd1;
  0x6fa87e4f; 0xfe2ce6e0; 0xa3014314; 0x4e0811a1;
  0xf7537e82; 0xbd3af235; 0x2ad7d2bb; 0xeb86d391 ].

Definition md5_S : list Z := [
  7; 12; 17; 22; 7; 12; 17; 22; 7; 12; 17; 22; 7; 12; 17; 22;
  5;  9; 14; 20; 5;  9; 14; 20; 5;  9; 14; 20; 5;  9; 14; 20;
  4; 11; 16; 23; 4; 11; 16; 23; 4; 11; 16; 23; 4; 11; 16; 23;
  6; 10; 15; 21; 6; 10; 15; 21; 6; 10; 15; 21; 6; 10; 15; 21 ].

Record md5_state := Md5State { md5_a : Z; md5_b : Z; md5_c : Z; md5_d : Z }.

Definition md5_init : md5_state :=
  Md5State 0x67452301 0xefcdab89 0x98badcfe 0x10325476.

(** The round function and the message word index of step [i]. *)
Definition md5_mix (i : nat) (b c d : Z) : Z * nat :=
  if decide (i < 16)%nat then
    (Z.lor (Z.land b c) (Z.land (not32 b) d), i)
  else if decide (i < 32)%nat then
    (Z.lor (Z.land d b) (Z.land (not32 d) c), (5 * i + 1) mod 16)%nat
  else if decide (i < 48)%nat then
    (Z.lxor (Z.lxor b c) d, (3 * i + 5) mod 16)%nat
  else
    (Z.lxor c (Z.lor b (not32 d)), (7 * i) mod 16)%nat.

Definition md5_step (M : list Z) (st : md5_state) (i : nat) : md5_state :=
  let '(Md5State a b c d) := st in
  let '(f, g) := md5_mix i b c d in
  let f' := add32 (add32 (add32 f a) (nth i md5_K 0)) (nth g M 0) in
  Md5State d (add32 b (rotl32 f' (nth i md5_S 0))) b c.

(** Four bytes, least significant first, to a 32-bit word and back. *)
Fixpoint le_word (bs : list Z) : Z :=
  match bs with
  | [] => 0
  | b :: bs' => Z.lor b (Z.shiftl (le_word bs') 8)
  end.

Fixpoint le_bytes (n : nat) (w : Z) : list Z :=
  match n with
  | O => []
  | S n' => Z.land w 0xff :: le_bytes n' (Z.shiftr w 8)
  end.

Fixpoint chunks (fuel : nat) (n : nat) (bs : list Z) : list (list Z) :=
  match fuel with
  | O => []
  | S fuel' =>
      match bs with
      | [] => []
      | _ => take n bs :: chunks fuel' n (drop n bs)
      end
  end.

Definition md5_block (st : md5_state) (block : list Z) : md5_state :=
  let M := le_word <$> chunks 16 4 block in
  let st' := fold_left (md5_step M) (seq 0 64) st in
  Md5State (add32 (md5_a st) (md5_a st')) (add32 (md5_b st) (md5_b st'))
           (add32 (md5_c st) (md5_c st')) (add32 (md5_d st) (md5_d st')).

(** Padding: a 1 bit, zeros up to 56 mod 64, then the bit length on 64 bits. *)
Definition md5_pad (msg : list Z) : list Z :=
  let len := Z.of_nat (length msg) in
  let zeros := Z.to_nat ((55 - len) mod 64) in
  msg ++ [0x80] ++ replicate zeros 0 ++ le_bytes 8 ((8 * len) mod 2 ^ 64).

(** [md5.New(); Write(data); Sum([]byte{})]: the 16 digest bytes. *)
Definition md5_Sum (data : list Z) : list Z :=
  let padded := md5_pad data in
  let st := fold_left md5_block (chunks (length padded) 64 padded) md5_init in
  le_bytes 4 (md5_a st) ++ le_bytes 4 (md5_b st) ++
  le_bytes 4 (md5_c st) ++ le_bytes 4 (md5_d st).

(** ** fmt *)

Definition hex_digit (n : Z) : ascii :=
  if decide (n < 10) then ascii_of_byte (48 + n) else ascii_of_byte (87 + n).

(** [fmt.Sprintf("%x", bs)] on a byte slice: two lowercase digits per byte. *)
Fixpoint fmt_Sprintf_x (bs : list Z) : string :=
  match bs with
  | [] => ""
  | b :: bs' =>
      String (hex_digit (Z.shiftr b 4))
        (String (hex_digit (Z.land b 15)) (fmt_Sprintf_x bs'))
  end.

(** [fmt.Sprintf("%d", n)]: base 10, a minus sign for negative numbers. *)
Definition fmt_Sprintf_d (n : Z) : string := pretty n.

(** ** Strings: comparison, [sort], [strings.Split], [url.QueryEscape] *)

(** Go compares strings byte by byte; [s1 <= s2] is "not [s2 < s1]". *)
Definition string_le (s1 s2 : string) : Prop := String.leb s1 s2 = true.

Global Instance string_le_dec : RelDecision string_le.
Proof. intros s1 s2. unfold string_le. apply _. Defined.

(** [sort.StringSlice(keys).Sort()]: the keys in ascending order.  Go's
    algorithm is not a merge sort, but on strings every sorting algorithm
    returns the same slice (see [sort_Strings_unique]). *)
Definition sort_Strings (keys : list string) : list string :=
  merge_sort string_le keys.

(** [strings.Split(s, sep)] for a one-byte separator, which is what both call
    sites pass: the pieces between separators, one piece when there is no
    separator (so [[""]] for the empty string). *)
Fixpoint strings_Split (s : string) (sep : ascii) : list string :=
  match s with
  | EmptyString => [""]
  | String c s' =>
      if decide (c = sep) then "" :: strings_Split s' sep
      else match strings_Split s' sep with
           | piece :: pieces => String c piece :: pieces
           | [] => [String c ""]
           end
  end.

Definition upper_hex_digit (n : Z) : ascii :=
  if decide (n < 10) then ascii_of_byte (48 + n) else ascii_of_byte (55 + n).

(** Bytes [url.QueryEscape] leaves alone: letters, digits and [-_.~]. *)
Definition url_unreserved (b : Z) : bool :=
  ((97 <=? b) && (b <=? 122) || (65 <=? b) && (b <=? 90) ||
   (48 <=? b) && (b <=? 57) ||
   (b =? 45) || (b =? 95) || (b =? 46) || (b =? 126))%Z.

Fixpoint url_QueryEscape (s : string) : string :=
  match s with
  | EmptyString => ""
  | String c s' =>
      let b := byte_of_ascii c in
      if url_unreserved b then String c (url_QueryEscape s')
      else if decide (b = 32) then String "+" (url_QueryEscape s')
      else String "%" (String (upper_hex_digit (Z.shiftr b 4))
             (String (upper_hex_digit (Z.land b 15)) (url_QueryEscape s')))
  end.

(** ** Maps, time, errors *)

(** Reading a [map[string]string]: the zero value [""] for an absent key. *)
Definition index (params : gmap string string) (key : string) : string :=
  default "" (params !! key).

(** [for k := range m] visits every key once, in an order Go leaves
    unspecified (and randomises).  The order is an input of the model: any
    function that lists the keys of each map. *)
Class MapRange := {
  range_keys : gmap string string → list string;
  range_keys_perm : ∀ m, range_keys m ≡ₚ (map_to_list m).*1
}.

(** An [error] value is represented by its message; [nil] is [None]. *)
Definition error : Type := string.

(** [int64] arithmetic wraps around. *)
Definition wrap64 (x : Z) : Z := (x + 2 ^ 63) mod 2 ^ 64 - 2 ^ 63.

(** A [time.Time] is the number of nanoseconds since the Unix epoch;
    [time.Duration] counts nanoseconds. *)
Definition time_Hour : Z := 3600 * 10 ^ 9.
Definition time_Add (t d : Z) : Z := t + d.
Definition time_Unix (t : Z) : Z := t `div` 10 ^ 9.

(* ===================================================================== *)
(** * The client                                                         *)
(* ===================================================================== *)

Definition DEFAULT_EXPIRE_IN_DAYS : Z := 5.

Record MixpanelAuth := { ApiKey : string; Secret : string }.

(** The embedded [*MixpanelAuth] is never nil in a client made by
    [NewMixpanel]; the model holds the credential itself. *)
Record Mixpanel := {
  Auth : MixpanelAuth;
  Format : string;
  BaseUrl : string
}.

Definition with_BaseUrl (m : Mixpanel) (url : string) : Mixpanel :=
  {| Auth := Auth m; Format := Format m; BaseUrl := url |}.

(** ** Construction *)

Definition NewMixpanelAuth (apiKey secret : string)
  : option MixpanelAuth * option error :=
  if bool_decide (apiKey = "") || bool_decide (secret = "") then
    (None, Some "Mixpanel API credentials not found.")
  else
    (Some {| ApiKey := apiKey; Secret := secret |}, None).

(** [NewMixpanel] either returns a client or stops the process in
    [log.Fatal] with the error it logged.  [NewMixpanelAuth] returns a
    credential or an error, never neither, so the last branch of
    [NewMixpanel] below is never taken. *)
Inductive construction :=
  | Constructed (m : Mixpanel)
  | Fatal (logged : error).

Definition NewMixpanel (apiKey secret : string) : construction :=
  match NewMixpanelAuth apiKey secret with
  | (_, Some err) => Fatal err
  | (Some ma, None) =>
      Constructed {| Auth := ma; Format := "json";
                     BaseUrl := "http://mixpanel.com/api/2.0" |}
  | (None, None) => Fatal ""
  end.

(** [NewMixpanelFromEnv]: the two environment variables are inputs. *)
Definition NewMixpanelFromEnv (getenv : string → string) : construction :=
  NewMixpanel (getenv "MIXPANEL_API_KEY") (getenv "MIXPANEL_SECRET").

(** ** Expiry *)

Definition ExpireInDays (now : Z) (days : Z) : Z :=
  time_Unix (time_Add now (wrap64 (wrap64 (time_Hour * days) * 24))).

Definition ExpireInHours (now : Z) (hours : Z) : Z :=
  time_Unix (time_Add now (wrap64 (time_Hour * hours))).

(** [AddExpire] does not use its receiver; [now] is what [time.Now()]
    returns during the call. *)
Definition AddExpire (now : Z) (params : gmap string string)
  : gmap string string :=
  if decide (index params "expire" = "") then
    <["expire" := fmt_Sprintf_d (ExpireInDays now DEFAULT_EXPIRE_IN_DAYS)]> params
  else params.

(** ** Signing *)

(** The loop that fills [buffer]: [key=value] for each key in turn. *)
Definition write_pairs (params : gmap string string) (keys : list string)
  : string :=
  fold_left (λ buffer key, buffer +:+ (key +:+ "=" +:+ index params key))
            keys "".

(** The bytes that get hashed, for the parameters as they are once
    [api_key] and [format] are in: sorted pairs, then the secret. *)
Definition canonical `{MapRange} (m : Mixpanel) (params : gmap string string)
  : string :=
  let keys := sort_Strings (range_keys params) in
  write_pairs params keys +:+ Secret (Auth m).

Definition AddSig `{MapRange} (m : Mixpanel) (params : gmap string string)
  : gmap string string :=
  let params := delete "sig" params in
  let params := <["api_key" := ApiKey (Auth m)]> params in
  let params := <["format" := Format m]> params in
  let buffer := canonical m params in
  let sigHex := fmt_Sprintf_x (md5_Sum (bytes_of_string buffer)) in
  <["sig" := sigHex]> params.

(** Two of the possible orders of iteration. *)
Definition stored_order : MapRange :=
  {| range_keys := λ m, (map_to_list m).*1;
     range_keys_perm := λ m, reflexivity _ |}.

Definition reversed_order : MapRange :=
  {| range_keys := λ m, reverse (map_to_list m).*1;
     range_keys_perm := λ m, reverse_Permutation _ |}.

(** ** The outside world: JSON encoding and the HTTP transport *)

(** [json.Marshal] on a [[]string], as [(bytes, err)]. *)
Class JsonMarshal := json_Marshal_strings : list string → string * option error.

(** [json.Unmarshal(data, &v)] for a target of type [T]: from the value [v]
    holds before the call to the value it holds after, and the error. *)
Class JsonUnmarshal (T : Type) := json_Unmarshal : string → T → T * option error.

(** [net/http] and [ioutil.ReadAll].  A call that fails returns its error
    ([inr]); [ReadAll] returns what it has read together with its error. *)
Class Transport := {
  Request : Type;
  Response : Type;
  http_NewRequest : string → string → Request + error;
  Header_Add : Request → string → string → Request;
  client_Do : Request → Response + error;
  ioutil_ReadAll : Response → string * option error
}.

(** ** Result shapes *)

(** A decoded [interface{}]: nil, bool, float64, string, [[]interface{}] or
    [map[string]interface{}].  No code here computes with a float64, so a
    number keeps the literal it was decoded from.  A nil map reads like an
    empty one and the two are identified. *)
#[local] Set Warnings "-register-all".
Inductive iface :=
  | INil
  | IBool (b : bool)
  | INumber (literal : string)
  | IString (s : string)
  | ISlice (items : list iface)
  | IMap (fields : gmap string iface).
#[local] Set Warnings "register-all".

Record float64 := Float64 { float64_literal : string }.

Record SeriesData := {
  Series : list string;
  Values : gmap string (gmap string Z)
}.

Record EventQueryResult := {
  EventQuery_LegendSize : Z;
  EventQuery_Data : SeriesData
}.

Record ExportQueryResult := {
  Event : string;
  Properties : gmap string iface
}.

Record SegmentationQueryResult := {
  Segmentation_LegendSize : Z;
  Segmentation_Data : SeriesData
}.

Record TopEvent := {
  Amount : Z;
  TopEvent_Event : string;
  PercentageChange : float64
}.

Record TopEventsResult := {
  Type_ : string;
  Events : list TopEvent
}.

Definition CommonEventsResult : Type := list string.

(** The zero value a [var result T] declaration starts from. *)
Class Zero (T : Type) := zero : T.
Global Instance zero_SeriesData : Zero SeriesData := {| Series := []; Values := ∅ |}.
Global Instance zero_EventQueryResult : Zero EventQueryResult :=
  {| EventQuery_LegendSize := 0; EventQuery_Data := zero |}.
Global Instance zero_ExportQueryResult : Zero ExportQueryResult :=
  {| Event := ""; Properties := ∅ |}.
Global Instance zero_SegmentationQueryResult : Zero SegmentationQueryResult :=
  {| Segmentation_LegendSize := 0; Segmentation_Data := zero |}.
Global Instance zero_TopEventsResult : Zero TopEventsResult :=
  {| Type_ := ""; Events := [] |}.
Global Instance zero_CommonEventsResult : Zero CommonEventsResult := [].
Global Instance zero_object : Zero (gmap string iface) := (∅ : gmap string iface).

(** What a method call leaves behind: the receiver (its [BaseUrl] is
    reassigned), the caller's parameter map (mutated in place), the lines
    written to the log, and the two returned values. *)
Record outcome (T : Type) := Outcome {
  out_client : Mixpanel;
  out_params : gmap string string;
  out_log : list string;
  out_value : T;
  out_err : option error
}.
Arguments Outcome {T}.
Arguments out_client {T}.
Arguments out_params {T}.
Arguments out_log {T}.
Arguments out_value {T}.
Arguments out_err {T}.

(** A call that can also end in a run-time panic. *)
Inductive go_result (T : Type) :=
  | Returns (v : T)
  | Panics.
Arguments Returns {T}.
Arguments Panics {T}.

(** ** Building and sending a request *)

Definition newline : string := String (ascii_of_byte 10) "".

(** [s[:len(s)-1]]. *)
Fixpoint drop_last (s : string) : string :=
  match s with
  | EmptyString => ""
  | String c EmptyString => ""
  | String c s' => String c (drop_last s')
  end.

Section Requests.
Context `{MapRange, JsonMarshal, Transport}.

(** The first lines of [MakeRequest]: the [event] entry is taken out, and
    put back as a JSON list when it was present and not empty.  The error
    is the one [MakeRequest] returns at once. *)
Definition encode_event (params : gmap string string)
  : gmap string string * option error :=
  let event := index params "event" in
  let ok := bool_decide (is_Some (params !! "event")) in
  let params := delete "event" params in
  if ok && negb (bool_decide (event = "")) then
    let events := strings_Split event "," in
    match json_Marshal_strings events with
    | (_, Some err) => (params, Some err)
    | (bytes, None) => (<["event" := bytes]> params, None)
    end
  else (params, None).

(** The loop that writes [key=value&] for every entry, values escaped. *)
Definition query_string (params : gmap string string) : string :=
  fold_left
    (λ buffer key,
       buffer +:+ (key +:+ "=" +:+ url_QueryEscape (index params key) +:+ "&"))
    (range_keys params) "".

Definition request_uri (m : Mixpanel) (action : string)
    (params : gmap string string) : string :=
  drop_last (BaseUrl m +:+ "/" +:+ action +:+ "?" +:+ query_string params).

(** The GET itself, from [http.NewRequest] to [ioutil.ReadAll]. *)
Definition http_get (uri : string) : string * option error :=
  match http_NewRequest "GET" uri with
  | inr err => ("", Some err)
  | inl req =>
      let req := Header_Add req "Content-Type" "application/x-www-form-urlencoded" in
      match client_Do req with
      | inr err => ("", Some err)
      | inl resp => ioutil_ReadAll resp
      end
  end.

(** [MakeRequest] returns the body and the error; the first component is
    the parameter map as the call leaves it, which the caller shares. *)
Definition MakeRequest (m : Mixpanel) (now : Z) (action : string)
    (params : gmap string string)
  : gmap string string * (string * option error) :=
  match encode_event params with
  | (params, Some err) => (params, ("", Some err))
  | (params, None) =>
      let params := AddExpire now params in
      let params := AddSig m params in
      (params, http_get (request_uri m action params))
  end.

(** ** Endpoints *)

Definition main_host : string := "http://mixpanel.com/api/2.0".
Definition export_host : string := "http://data.mixpanel.com/api/2.0".

Definition EventQuery `{JsonUnmarshal EventQueryResult}
    (m : Mixpanel) (now : Z) (params : gmap string string)
  : outcome EventQueryResult :=
  let m := with_BaseUrl m main_host in
  let result : EventQueryResult := zero in
  let '(params, (bytes, err)) := MakeRequest m now "events/properties" params in
  match err with
  | Some e => Outcome m params [] result (Some e)
  | None =>
      let '(result, err) := json_Unmarshal bytes result in
      Outcome m params [] result err
  end.

(** One turn of the loop over the lines of an export. *)
Definition export_line `{JsonUnmarshal ExportQueryResult}
    (acc : list ExportQueryResult * list string) (s : string)
  : list ExportQueryResult * list string :=
  let '(results, log) := acc in
  if decide (s = "") then (results, log)
  else
    match json_Unmarshal s (zero : ExportQueryResult) with
    | (_, Some e) =>
        (results, (log ++ ["BAD EVENT " +:+ e +:+ " -- '" +:+ s +:+ "'" +:+ newline])%list)
    | (result, None) => ((results ++ [result])%list, log)
    end.

Definition ExportQuery `{JsonUnmarshal ExportQueryResult}
    (m : Mixpanel) (now : Z) (params : gmap string string)
  : outcome (list ExportQueryResult) :=
  let m := with_BaseUrl m export_host in
  let results : list ExportQueryResult := [] in
  let '(params, (bytes, err)) := MakeRequest m now "export" params in
  match err with
  | Some e => Outcome m params [] results (Some e)
  | None =>
      let '(results, log) :=
        fold_left export_line (strings_Split bytes (ascii_of_byte 10)) (results, []) in
      Outcome m params log results None
  end.

Definition PeopleQuery `{JsonUnmarshal (gmap string iface)}
    (m : Mixpanel) (now : Z) (params : gmap string string)
  : outcome (gmap string iface) :=
  let result : gmap string iface := zero in
  let m := with_BaseUrl m main_host in
  let '(params, (bytes, err)) := MakeRequest m now "engage" params in
  match err with
  | Some e => Outcome m params [] result (Some e)
  | None =>
      let '(result, _) := json_Unmarshal bytes result in
      Outcome m params [] result None
  end.

(** [x.([]interface{})], [x.(map[string]interface{})]: the value inside,
    or a panic ([None]) for any other dynamic type, nil included. *)
Definition assert_slice (x : iface) : option (list iface) :=
  match x with ISlice items => Some items | _ => None end.
Definition assert_map (x : iface) : option (gmap string iface) :=
  match x with IMap fields => Some fields | _ => None end.

(** Reading a [map[string]interface{}]: nil for an absent key. *)
Definition field (obj : gmap string iface) (key : string) : iface :=
  default INil (obj !! key).

Definition UserInfo `{JsonUnmarshal (gmap string iface)}
    (m : Mixpanel) (now : Z) (id : string)
  : go_result (outcome (gmap string iface)) :=
  let params : gmap string string := {[ "distinct_id" := id ]} in
  let r := PeopleQuery m now params in
  let result := out_value r in
  match out_err r with
  | Some e => Returns r
  | None =>
      match assert_slice (field result "results") with
      | None => Panics
      | Some [] => Returns (Outcome (out_client r) (out_params r) (out_log r) ∅ None)
      | Some (first :: _) =>
          match assert_map first with
          | None => Panics
          | Some user =>
              match assert_map (field user "$properties") with
              | None => Panics
              | Some properties =>
                  Returns (Outcome (out_client r) (out_params r) (out_log r)
                                   properties None)
              end
          end
      end
  end.

Definition SegmentationQuery `{JsonUnmarshal SegmentationQueryResult}
    (m : Mixpanel) (now : Z) (params : gmap string string)
  : outcome SegmentationQueryResult :=
  let m := with_BaseUrl m main_host in
  let '(params, (bytes, err)) := MakeRequest m now "segmentation" params in
  let result : SegmentationQueryResult := zero in
  match err with
  | Some e => Outcome m params [] result (Some e)
  | None =>
      let '(result, err) := json_Unmarshal bytes result in
      Outcome m params [] result err
  end.

Definition TopEvents `{JsonUnmarshal TopEventsResult}
    (m : Mixpanel) (now : Z) (params : gmap string string)
  : outcome TopEventsResult :=
  let m := with_BaseUrl m main_host in
  let result : TopEventsResult := zero in
  let '(params, (bytes, err)) := MakeRequest m now "events/top" params in
  match err with
  | Some e => Outcome m params [] result (Some e)
  | None =>
      let '(result, err) := json_Unmarshal bytes result in
      Outcome m params [] result err
  end.

Definition MostCommonEventsLast31Days `{JsonUnmarshal CommonEventsResult}
    (m : Mixpanel) (now : Z) (params : gmap string string)
  : outcome CommonEventsResult :=
  let m := with_BaseUrl m main_host in
  let '(params, (bytes, err)) := MakeRequest m now "events/names" params in
  let result : CommonEventsResult := zero in
  match err with
  | Some e => Outcome m params [] result (Some e)
  | None =>
      let '(result, err) := json_Unmarshal bytes result in
      Outcome m params [] result err
  end.
End Requests.

(* ===================================================================== *)
(** * A reference instance of the outside world                          *)
(* ===================================================================== *)

(** The theorems about the client hold for every [JsonMarshal],
    [JsonUnmarshal] and [Transport].  To run the client on concrete bodies,
    this part gives one instance of each: a reader and a writer for the
    JSON grammar of RFC 8259 as [encoding/json] applies it, and a transport
    that answers every request with a fixed body.  Not modelled: the
    conversion of number literals to float64 (and its range error), the
    replacement of ill-formed UTF-8, the nesting limit, case folding
    outside ASCII, and the wording of error messages. *)

#[local] Set Warnings "-register-all".
Inductive json :=
  | JNull
  | JBool (b : bool)
  | JNumber (literal : string)
  | JString (s : string)
  | JArray (items : list json)
  | JObject (members : list (string * json)).
#[local] Set Warnings "register-all".

Definition is_ws (c : ascii) : bool :=
  let b := byte_of_ascii c in ((b =? 32) || (b =? 9) || (b =? 10) || (b =? 13))%Z.

Definition is_digit (c : ascii) : bool :=
  let b := byte_of_ascii c in ((48 <=? b) && (b <=? 57))%Z.

Fixpoint skip_ws (s : string) : string :=
  match s with
  | String c s' => if is_ws c then skip_ws s' else s
  | EmptyString => ""
  end.

Fixpoint strip_prefix (p s : string) : option string :=
  match p, s with
  | EmptyString, _ => Some s
  | String a p', String b s' => if decide (a = b) then strip_prefix p' s' else None
  | String _ _, EmptyString => None
  end.

Fixpoint take_digits (s : string) : string * string :=
  match s with
  | String c s' =>
      if is_digit c then let '(d, r) := take_digits s' in (String c d, r)
      else ("", s)
  | EmptyString => ("", "")
  end.

(** At least one digit. *)
Definition scan_digits (s : string) : option (string * string) :=
  match take_digits s with
  | (EmptyString, _) => None
  | (d, r) => Some (d, r)
  end.

(** A number literal: an optional minus sign; a single 0 or a digit string
    that does not start with 0; optionally a point and digits; optionally
    an exponent mark, a sign and digits. *)
Definition scan_number (s : string) : option (string * string) :=
  let '(sign, s) :=
    match strip_prefix "-" s with Some r => ("-", r) | None => ("", s) end in
  '(int, s) ← match strip_prefix "0" s with
               | Some r => Some ("0", r)
               | None => scan_digits s
               end;
  '(frac, s) ← match strip_prefix "." s with
                | Some r => '(d, r') ← scan_digits r; Some ("." +:+ d, r')
                | None => Some ("", s)
                end;
  '(exp, s) ← match s with
               | String e r =>
                   if bool_decide (e = "e"%char) || bool_decide (e = "E"%char) then
                     let '(sg, r) :=
                       match r with
                       | String c r' =>
                           if bool_decide (c = "+"%char) || bool_decide (c = "-"%char)
                           then (String c "", r') else ("", r)
                       | EmptyString => ("", r)
                       end in
                     '(d, r') ← scan_digits r; Some (String e (sg +:+ d), r')
                   else Some ("", s)
               | EmptyString => Some ("", s)
               end;
  Some (sign +:+ int +:+ frac +:+ exp, s).

Definition hex_value (c : ascii) : option Z :=
  let b := byte_of_ascii c in
  if ((48 <=? b) && (b <=? 57))%Z then Some (b - 48)
  else if ((97 <=? b) && (b <=? 102))%Z then Some (b - 87)
  else if ((65 <=? b) && (b <=? 70))%Z then Some (b - 55)
  else None.

Definition hex4 (s : string) : option (Z * string) :=
  match s with
  | String a (String b (String c (String d r))) =>
      x ← hex_value a; y ← hex_value b; z ← hex_value c; w ← hex_value d;
      Some (((x * 16 + y) * 16 + z) * 16 + w, r)
  | _ => None
  end.

Definition utf8_encode (cp : Z) : string :=
  string_of_bytes
    (if (cp <? 0x80)%Z then [cp]
     else if (cp <? 0x800)%Z then
       [Z.lor 0xC0 (Z.shiftr cp 6); Z.lor 0x80 (Z.land cp 0x3F)]
     else if (cp <? 0x10000)%Z then
       [Z.lor 0xE0 (Z.shiftr cp 12); Z.lor 0x80 (Z.land (Z.shiftr cp 6) 0x3F);
        Z.lor 0x80 (Z.land cp 0x3F)]
     else
       [Z.lor 0xF0 (Z.shiftr cp 18); Z.lor 0x80 (Z.land (Z.shiftr cp 12) 0x3F);
        Z.lor 0x80 (Z.land (Z.shiftr cp 6) 0x3F); Z.lor 0x80 (Z.land cp 0x3F)]).

Definition simple_escape (e : ascii) : option ascii :=
  let b := byte_of_ascii e in
  if ((b =? 34) || (b =? 92) || (b =? 47))%Z then Some e   (* quote, backslash, slash *)
  else if (b =? 98)%Z then Some (ascii_of_byte 8)         (* b: backspace *)
  else if (b =? 102)%Z then Some (ascii_of_byte 12)       (* f: form feed *)
  else if (b =? 110)%Z then Some (ascii_of_byte 10)       (* n: line feed *)
  else if (b =? 114)%Z then Some (ascii_of_byte 13)       (* r: carriage return *)
  else if (b =? 116)%Z then Some (ascii_of_byte 9)        (* t: tab *)
  else None.

Definition push (prefix : string) (r : option (string * string))
  : option (string * string) :=
  '(s, rest) ← r; Some (prefix +:+ s, rest).

(** The characters of a string literal after its opening quote, decoded,
    and what follows the closing quote. *)
Fixpoint scan_string (fuel : nat) (s : string) : option (string * string) :=
  match fuel with
  | O => None
  | S fuel' =>
      match s with
      | EmptyString => None
      | String c s' =>
          let b := byte_of_ascii c in
          if (b =? 34)%Z then Some ("", s')
          else if (b =? 92)%Z then
            match s' with
            | EmptyString => None
            | String e s'' =>
                if bool_decide (e = "u"%char) then
                  '(cp, r) ← hex4 s'';
                  if ((0xD800 <=? cp) && (cp <? 0xDC00))%Z then
                    match strip_prefix "\u" r ≫= hex4 with
                    | Some (lo, r') =>
                        if ((0xDC00 <=? lo) && (lo <? 0xE000))%Z then
                          push (utf8_encode
                                  (0x10000 + (cp - 0xD800) * 0x400 + (lo - 0xDC00)))
                               (scan_string fuel' r')
                        else push (utf8_encode 0xFFFD) (scan_string fuel' r)
                    | None => push (utf8_encode 0xFFFD) (scan_string fuel' r)
                    end
                  else if ((0xDC00 <=? cp) && (cp <? 0xE000))%Z then
                    push (utf8_encode 0xFFFD) (scan_string fuel' r)
                  else push (utf8_encode cp) (scan_string fuel' r)
                else
                  ch ← simple_escape e; push (String ch "") (scan_string fuel' s'')
            end
          else if (b <? 32)%Z then None
          else push (String c "") (scan_string fuel' s')
      end
  end.

(** One value, the members of an object after its first key's quote is due,
    and the items of an array.  Every call uses up one unit of fuel; a text
    of [n] bytes needs at most [n + 1]. *)
Fixpoint parse_value (fuel : nat) (s : string) : option (json * string) :=
  match fuel with
  | O => None
  | S fuel' =>
      match skip_ws s with
      | EmptyString => None
      | String c rest as s0 =>
          let b := byte_of_ascii c in
          if (b =? 123)%Z then                                   (* { *)
            match strip_prefix "}" (skip_ws rest) with
            | Some r => Some (JObject [], r)
            | None => '(ms, r) ← parse_members fuel' rest; Some (JObject ms, r)
            end
          else if (b =? 91)%Z then                               (* [ *)
            match strip_prefix "]" (skip_ws rest) with
            | Some r => Some (JArray [], r)
            | None => '(items, r) ← parse_items fuel' rest; Some (JArray items, r)
            end
          else if (b =? 34)%Z then
            '(str, r) ← scan_string (S (String.length rest)) rest;
            Some (JString str, r)
          else if (b =? 45)%Z || is_digit c then
            '(lit, r) ← scan_number s0; Some (JNumber lit, r)
          else
            match strip_prefix "true" s0, strip_prefix "false" s0,
                  strip_prefix "null" s0 with
            | Some r, _, _ => Some (JBool true, r)
            | _, Some r, _ => Some (JBool false, r)
            | _, _, Some r => Some (JNull, r)
            | _, _, _ => None
            end
      end
  end
with parse_members (fuel : nat) (s : string)
  : option (list (string * json) * string) :=
  match fuel with
  | O => None
  | S fuel' =>
      match skip_ws s with
      | String c rest =>
          if (byte_of_ascii c =? 34)%Z then
            '(key, r) ← scan_string (S (String.length rest)) rest;
            r ← strip_prefix ":" (skip_ws r);
            '(v, r) ← parse_value fuel' r;
            match skip_ws r with
            | String d r' =>
                if (byte_of_ascii d =? 44)%Z then                (* , *)
                  '(ms, r'') ← parse_members fuel' r'; Some ((key, v) :: ms, r'')
                else if (byte_of_ascii d =? 125)%Z then          (* } *)
                  Some ([(key, v)], r')
                else None
            | EmptyString => None
            end
          else None
      | EmptyString => None
      end
  end
with parse_items (fuel : nat) (s : string) : option (list json * string) :=
  match fuel with
  | O => None
  | S fuel' =>
      '(v, r) ← parse_value fuel' s;
      match skip_ws r with
      | String d r' =>
          if (byte_of_ascii d =? 44)%Z then
            '(items, r'') ← parse_items fuel' r'; Some (v :: items, r'')
          else if (byte_of_ascii d =? 93)%Z then Some ([v], r')
          else None
      | EmptyString => None
      end
  end.

(** A whole text: one value, then nothing but white space. *)
Definition json_parse (data : string) : option json :=
  '(v, r) ← parse_value (S (String.length data)) data;
  if decide (skip_ws r = "") then Some v else None.

(** The value [json.Unmarshal] stores in an [interface{}]; in an object a
    later member replaces an earlier one with the same key. *)
Fixpoint to_iface (j : json) : iface :=
  match j with
  | JNull => INil
  | JBool b => IBool b
  | JNumber literal => INumber literal
  | JString s => IString s
  | JArray items => ISlice (map to_iface items)
  | JObject members =>
      IMap (fold_left (λ acc kv, <[kv.1 := to_iface kv.2]> acc) members ∅)
  end.

(** Apostrophes for quotes, to write JSON texts down. *)
Fixpoint quoted (s : string) : string :=
  match s with
  | EmptyString => ""
  | String c s' =>
      String (if (byte_of_ascii c =? 39)%Z then ascii_of_byte 34 else c) (quoted s')
  end.

(** Members stored into a [map[string]interface{}] that may already hold
    entries. *)
Definition store_members (members : list (string * json))
    (obj : gmap string iface) : gmap string iface :=
  fold_left (λ acc kv, <[kv.1 := to_iface kv.2]> acc) members obj.

(** [json.Unmarshal] into a [map[string]interface{}]: null makes the map
    nil, an object fills it, any other value is a type error and any other
    text a syntax error, both leaving the map as it was. *)
Global Instance unmarshal_object : JsonUnmarshal (gmap string iface) :=
  λ data obj,
    match json_parse data with
    | None => (obj, Some "json: syntax error")
    | Some JNull => (∅, None)
    | Some (JObject members) => (store_members members obj, None)
    | Some _ =>
        (obj, Some "json: cannot unmarshal into Go value of type map[string]interface {}")
    end.

Definition lower (c : ascii) : ascii :=
  let b := byte_of_ascii c in
  if ((65 <=? b) && (b <=? 90))%Z then ascii_of_byte (b + 32) else c.

Fixpoint fold_name (s : string) : string :=
  match s with
  | EmptyString => ""
  | String c s' => String (lower c) (fold_name s')
  end.

(** The first error met is the one reported. *)
Definition first_error (err : option error) (e : error) : option error :=
  match err with Some e0 => Some e0 | None => Some e end.

(** One member of an object decoded into an [ExportQueryResult].  The
    struct tags of the source lack their quotes, so the fields go by their
    Go names, [Event] and [Properties], which keys match whatever their
    case.  A value of the wrong type is an error, and decoding goes on. *)
Definition export_member (acc : ExportQueryResult * option error)
    (kv : string * json) : ExportQueryResult * option error :=
  let '(result, err) := acc in
  if decide (fold_name kv.1 = "event") then
    match kv.2 with
    | JString s => ({| Event := s; Properties := Properties result |}, err)
    | JNull => (result, err)
    | _ => (result, first_error err
              "json: cannot unmarshal into Go struct field ExportQueryResult.Event of type string")
    end
  else if decide (fold_name kv.1 = "properties") then
    match kv.2 with
    | JObject members =>
        ({| Event := Event result;
            Properties := store_members members (Properties result) |}, err)
    | JNull => ({| Event := Event result; Properties := ∅ |}, err)
    | _ => (result, first_error err
              "json: cannot unmarshal into Go struct field ExportQueryResult.Properties of type map[string]interface {}")
    end
  else (result, err).

Global Instance unmarshal_export : JsonUnmarshal ExportQueryResult :=
  λ data result,
    match json_parse data with
    | None => (result, Some "json: syntax error")
    | Some JNull => (result, None)
    | Some (JObject members) => fold_left export_member members (result, None)
    | Some _ =>
        (result, Some "json: cannot unmarshal into Go value of type mixpanel.ExportQueryResult")
    end.

(** [json.Marshal] of a [[]string]: a bracketed, comma-separated list of
    string literals.  Quotes, backslashes, control characters and the
    characters that matter to HTML are escaped; it never fails. *)
Definition escape_byte (c : ascii) : string :=
  let b := byte_of_ascii c in
  if ((b =? 34) || (b =? 92))%Z then String "\" (String c "")
  else if (b =? 10)%Z then "\n"
  else if (b =? 13)%Z then "\r"
  else if (b =? 9)%Z then "\t"
  else if ((b <? 32) || (b =? 60) || (b =? 62) || (b =? 38))%Z then
    "\u00" +:+ String (hex_digit (Z.shiftr b 4)) (String (hex_digit (Z.land b 15)) "")
  else String c "".

Fixpoint escape_string (s : string) : string :=
  match s with
  | EmptyString => ""
  | String c s' => escape_byte c +:+ escape_string s'
  end.

Definition dquote : string := String (ascii_of_byte 34) "".

Definition string_literal (s : string) : string :=
  dquote +:+ escape_string s +:+ dquote.

Fixpoint join_with (sep : string) (pieces : list string) : string :=
  match pieces with
  | [] => ""
  | [p] => p
  | p :: rest => p +:+ sep +:+ join_with sep rest
  end.

Global Instance marshal_strings : JsonMarshal :=
  λ events, ("[" +:+ join_with "," (string_literal <$> events) +:+ "]", None).

(** A transport that answers every request with the same body. *)
Definition canned (body : string) : Transport :=
  {| Request := string;
     Response := string;
     http_NewRequest := λ _ uri, inl uri;
     Header_Add := λ req _ _, req;
     client_Do := λ _, inl body;
     ioutil_ReadAll := λ resp, (resp, None) |}.

(** A transport whose connection fails. *)
Definition unreachable : Transport :=
  {| Request := string;
     Response := string;
     http_NewRequest := λ _ uri, inl uri;
     Header_Add := λ req _ _, req;
     client_Do := λ _, inr "dial tcp: connection refused";
     ioutil_ReadAll := λ resp, (resp, None) |}.

(* ===================================================================== *)
(** * Vocabulary of the claims                                           *)
(* ===================================================================== *)

(** The parameter set at the moment [AddSig] collects the keys: the old
    signature gone, [api_key] and [format] in. *)
Definition prepared (m : Mixpanel) (params : gmap string string)
  : gmap string string :=
  <["format" := Format m]> (<["api_key" := ApiKey (Auth m)]> (delete "sig" params)).

(** A parameter set built by a run of assignments [params[k] = v]. *)
Definition assign_all (pairs : list (string * string)) : gmap string string :=
  fold_left (λ params kv, <[kv.1 := kv.2]> params) pairs ∅.

(** The record an export line contributes: none for a blank line or a line
    that does not decode. *)
Definition valid_record `{JsonUnmarshal ExportQueryResult} (s : string)
  : option ExportQueryResult :=
  if decide (s = "") then None
  else match json_Unmarshal s (zero : ExportQueryResult) with
       | (result, None) => Some result
       | (_, Some _) => None
       end.

(** The log line an export line causes: one for a line that is not blank
    and does not decode, quoting the line. *)
Definition complaint `{JsonUnmarshal ExportQueryResult} (s : string)
  : option string :=
  if decide (s = "") then None
  else match json_Unmarshal s (zero : ExportQueryResult) with
       | (_, Some e) => Some ("BAD EVENT " +:+ e +:+ " -- '" +:+ s +:+ "'" +:+ newline)
       | (_, None) => None
       end.

(** The two values a call returned, if it returned. *)
Definition returned {T : Type} (r : go_result (outcome T))
  : option (T * option error) :=
  match r with
  | Returns o => Some (out_value o, out_err o)
  | Panics => None
  end.

(** The client and the bodies the examples use. *)
Definition client_k_s : Mixpanel :=
  {| Auth := {| ApiKey := "k"; Secret := "s" |}; Format := "json";
     BaseUrl := "http://mixpanel.com/api/2.0" |}.

Definition export_body : string :=
  quoted "{'event':'a','properties':{}}" +:+ newline +:+ newline +:+
  "invalid" +:+ newline +:+ quoted "{'event':'b','properties':{'x':1}}".

(** ** Vocabulary of the further properties *)

(** A lowercase hexadecimal digit. *)
Definition is_lower_hex (c : ascii) : bool :=
  let b := byte_of_ascii c in
  ((48 <=? b) && (b <=? 57) || (97 <=? b) && (b <=? 102))%Z.

Fixpoint string_forallb (P : ascii → bool) (s : string) : bool :=
  match s with
  | EmptyString => true
  | String c s' => P c && string_forallb P s'
  end.

(** The number of times a byte occurs in a string. *)
Fixpoint count_byte (c : ascii) (s : string) : nat :=
  match s with
  | EmptyString => 0
  | String d s' => (if decide (d = c) then 1 else 0) + count_byte c s'
  end.

(** One pair of the query string, without its separator. *)
Definition pair_text (params : gmap string string) (key : string) : string :=
  key +:+ "=" +:+ url_QueryEscape (index params key).


(** An export line that is not blank. *)
Definition nonblank (s : string) : bool := negb (bool_decide (s = "")).

(** A body made of [n] line feeds. *)
Definition line_feeds (n : nat) : string :=
  string_of_list_ascii (replicate n (ascii_of_byte 10)).

(* ===================================================================== *)
(** * The runtime on examples                                            *)
(* ===================================================================== *)

Example md5_empty :
  fmt_Sprintf_x (md5_Sum (bytes_of_string "")) = "d41d8cd98f00b204e9800998ecf8427e".
Proof. vm_compute. reflexivity. Qed.

Example md5_abc :
  fmt_Sprintf_x (md5_Sum (bytes_of_string "abc")) = "900150983cd24fb0d6963f7d28e17f72".
Proof. vm_compute. reflexivity. Qed.

Example md5_two_blocks :
  fmt_Sprintf_x (md5_Sum (bytes_of_string
    "12345678901234567890123456789012345678901234567890123456789012345678901234567890"))
  = "57edf4a22be3c955ac49da2e2107b67a".
Proof. vm_compute. reflexivity. Qed.

Example fmt_d_examples :
  fmt_Sprintf_d 0 = "0" ∧ fmt_Sprintf_d 1700432000 = "1700432000" ∧ fmt_Sprintf_d (-42) = "-42".
Proof. vm_compute. done. Qed.

Example strings_Split_examples :
  strings_Split "a,b" "," = ["a"; "b"] ∧ strings_Split "" "," = [""] ∧
  strings_Split ",a,," "," = [""; "a"; ""; ""] ∧ strings_Split "abc" "," = ["abc"].
Proof. vm_compute. done. Qed.

Example url_QueryEscape_example :
  url_QueryEscape "[a b,c/d~&e=f]" = "%5Ba+b%2Cc%2Fd~%26e%3Df%5D".
Proof. vm_compute. done. Qed.

Example sort_Strings_example :
  sort_Strings ["format"; "expire"; "api_key"; "Zeta"; "apj"; "api"]
  = ["Zeta"; "api"; "api_key"; "apj"; "expire"; "format"].
Proof. vm_compute. done. Qed.

Example json_parse_examples :
  json_parse (quoted "{'a': [1, -2.5e+3, true, null], 'b': {'c': 'x\nyé'}} ")
  = Some (JObject [("a", JArray [JNumber "1"; JNumber "-2.5e+3"; JBool true; JNull]);
                   ("b", JObject [("c", JString (String "x" (String (ascii_of_byte 10)
                       (String "y" (string_of_bytes [0xC3; 0xA9])))))])]) ∧
  json_parse "invalid" = None ∧ json_parse "" = None ∧
  json_parse "[1,]" = None ∧ json_parse "01" = None ∧ json_parse "{} x" = None ∧
  json_parse (quoted "{'a':1,}") = None ∧ json_parse "[[[]]]" = Some (JArray [JArray [JArray []]]).
Proof. vm_compute. repeat split. Qed.

Example marshal_strings_example :
  json_Marshal_strings (strings_Split "signup,a<b" ",")
  = (quoted "['signup','a\u003cb']", None).
Proof. vm_compute. done. Qed.

Example unmarshal_export_examples :
  json_Unmarshal (quoted "{'event':'a','properties':{'x':1},'other':[2]}") (zero : ExportQueryResult)
  = ({| Event := "a"; Properties := {[ "x" := INumber "1" ]} |}, None) ∧
  is_Some (json_Unmarshal "invalid" (zero : ExportQueryResult)).2 ∧
  is_Some (json_Unmarshal (quoted "{'event':1}") (zero : ExportQueryResult)).2 ∧
  is_Some (json_Unmarshal "[]" (zero : ExportQueryResult)).2 ∧
  json_Unmarshal "null" (zero : ExportQueryResult) = (zero, None).
Proof. vm_compute. repeat split; eauto. Qed.

(* ===================================================================== *)
(** * Properties of the runtime                                          *)
(* ===================================================================== *)

Lemma string_le_refl s : string_le s s.
Proof.
  unfold string_le, String.leb.
  destruct (String.compare s s) eqn:Hc; try done.
  pose proof (String.compare_antisym s s) as Ha. rewrite Hc in Ha. done.
Qed.

Lemma ascii_compare_trans_lt a b c :
  Ascii.compare a b = Lt → Ascii.compare b c = Lt → Ascii.compare a c = Lt.
Proof.
  unfold Ascii.compare. rewrite !N.compare_lt_iff. lia.
Qed.

Lemma string_le_trans s1 s2 s3 :
  string_le s1 s2 → string_le s2 s3 → string_le s1 s3.
Proof.
  unfold string_le, String.leb. revert s2 s3.
  induction s1 as [|a s1 IH]; intros [|b s2] [|c s3]; simpl; try done.
  destruct (Ascii.compare a b) eqn:Hab; try done;
    destruct (Ascii.compare b c) eqn:Hbc; try done.
  - apply Ascii.compare_eq_iff in Hab as ->. rewrite Hbc. apply IH.
  - apply Ascii.compare_eq_iff in Hab as ->. by rewrite Hbc.
  - apply Ascii.compare_eq_iff in Hbc as <-. by rewrite Hab.
  - by rewrite (ascii_compare_trans_lt a b c).
Qed.

Global Instance string_le_transitive : Transitive string_le.
Proof. intros s1 s2 s3. apply string_le_trans. Qed.

Global Instance string_le_total : Total string_le.
Proof. intros s1 s2. apply String.leb_total. Qed.

Global Instance string_le_antisym : AntiSymm (=) string_le.
Proof. intros s1 s2. apply String.leb_antisym. Qed.

Lemma sort_Strings_sorted keys : Sorted string_le (sort_Strings keys).
Proof. apply Sorted_merge_sort, _. Qed.

Lemma sort_Strings_perm keys : sort_Strings keys ≡ₚ keys.
Proof. apply merge_sort_Permutation. Qed.

(** Whatever the algorithm, the sorted slice is determined by the keys:
    any ascending arrangement of them is the one [sort_Strings] returns. *)
Lemma sort_Strings_unique keys sorted :
  Sorted string_le sorted → sorted ≡ₚ keys → sort_Strings keys = sorted.
Proof.
  intros Hs Hp. apply (Sorted_unique string_le).
  - apply sort_Strings_sorted.
  - done.
  - by rewrite sort_Strings_perm.
Qed.

Lemma sort_Strings_order keys1 keys2 :
  keys1 ≡ₚ keys2 → sort_Strings keys1 = sort_Strings keys2.
Proof.
  intros Hp. apply sort_Strings_unique.
  - apply sort_Strings_sorted.
  - by rewrite sort_Strings_perm.
Qed.

(** The canonical string does not depend on the order in which the map
    hands out its keys. *)
Lemma canonical_order (R1 R2 : MapRange) m params :
  @canonical R1 m params = @canonical R2 m params.
Proof.
  unfold canonical. f_equal. f_equal. apply sort_Strings_order.
  by rewrite !range_keys_perm.
Qed.

Lemma AddSig_order (R1 R2 : MapRange) m params :
  @AddSig R1 m params = @AddSig R2 m params.
Proof.
  unfold AddSig. by rewrite (canonical_order R1 R2).
Qed.

(* ===================================================================== *)
(** * Signing                                                            *)
(* ===================================================================== *)

Lemma AddSig_prepared `{MapRange} m params :
  AddSig m params
  = <["sig" := fmt_Sprintf_x (md5_Sum (bytes_of_string (canonical m (prepared m params))))]>
      (prepared m params).
Proof. reflexivity. Qed.

Lemma prepared_no_sig m params : prepared m params !! "sig" = None.
Proof. unfold prepared. by simplify_map_eq. Qed.

Lemma prepared_insert_sig m params s :
  prepared m (<["sig" := s]> params) = prepared m params.
Proof. unfold prepared. by rewrite delete_insert_eq. Qed.

Lemma prepared_idem m params : prepared m (prepared m params) = prepared m params.
Proof.
  apply map_eq. intros k. unfold prepared.
  destruct (decide (k = "format")) as [->|]; [by simplify_map_eq|].
  destruct (decide (k = "api_key")) as [->|]; [by simplify_map_eq|].
  destruct (decide (k = "sig")) as [->|]; by simplify_map_eq.
Qed.

(** C1.  For the parameter set whose only entry is expire = 100 and the
    client with api key k, secret s and format json, whatever the order in
    which the map hands out its keys: the string that is hashed is
    [api_key=kexpire=100format=jsons], and the [sig] entry that [AddSig]
    stores is the lowercase hexadecimal MD5 digest of exactly these bytes,
    which is 716cb25d675fc53cf60c86563ce64616; nothing else changes but
    [api_key] and [format]. *)
Theorem AddSig_known_vector (R : MapRange) :
  let params : gmap string string := {[ "expire" := "100" ]} in
  canonical client_k_s (prepared client_k_s params) = "api_key=kexpire=100format=jsons" ∧
  AddSig client_k_s params !! "sig"
    = Some (fmt_Sprintf_x (md5_Sum (bytes_of_string "api_key=kexpire=100format=jsons"))) ∧
  AddSig client_k_s params
    = {[ "api_key" := "k"; "expire" := "100"; "format" := "json";
         "sig" := "716cb25d675fc53cf60c86563ce64616" ]}.
Proof.
  intros params.
  rewrite (AddSig_order R stored_order), (canonical_order R stored_order).
  repeat split; vm_compute; reflexivity.
Qed.

(** What is signed is a function of the entries at signing time and of
    the secret alone. *)
Lemma AddSig_entries (R1 R2 : MapRange) m1 m2 (params1 params2 : gmap string string) :
  prepared m1 params1 = prepared m2 params2 →
  Secret (Auth m1) = Secret (Auth m2) →
  @AddSig R1 m1 params1 = @AddSig R2 m2 params2.
Proof.
  intros Hp Hs. rewrite (AddSig_order R1 R2), !AddSig_prepared, Hp.
  unfold canonical. by rewrite Hs.
Qed.

(** C2.  Signing depends only on the key/value pairs present, the secret
    and the format.  Two parameter sets with the same entries get the same
    signature (indeed the same signed set), whatever order each of the two
    maps hands out its keys in.  More generally, two signings whose sets
    hold the same entries when the keys are collected ([api_key] and
    [format] included), with the same secret, give the same result. *)
Theorem AddSig_deterministic (R1 R2 : MapRange) :
  (∀ m (params1 params2 : gmap string string),
     (∀ key, params1 !! key = params2 !! key) →
     @AddSig R1 m params1 !! "sig" = @AddSig R2 m params2 !! "sig" ∧
     @AddSig R1 m params1 = @AddSig R2 m params2) ∧
  (∀ m1 m2 (params1 params2 : gmap string string),
     (∀ key, prepared m1 params1 !! key = prepared m2 params2 !! key) →
     Secret (Auth m1) = Secret (Auth m2) →
     @AddSig R1 m1 params1 = @AddSig R2 m2 params2).
Proof.
  split.
  - intros m params1 params2 Heq. apply map_eq in Heq as ->.
    by rewrite (AddSig_order R1 R2).
  - intros m1 m2 params1 params2 Heq Hs. apply map_eq in Heq.
    by apply AddSig_entries.
Qed.

Lemma AddSig_deterministic_witness :
  let params1 : gmap string string := <["b" := "2"]> (<["a" := "1"]> ∅) in
  let params2 : gmap string string := <["a" := "1"]> (<["b" := "2"]> ∅) in
  (@AddSig stored_order client_k_s params1 !! "sig"
     = @AddSig reversed_order client_k_s params2 !! "sig" ∧
   @AddSig stored_order client_k_s params1 = @AddSig reversed_order client_k_s params2) ∧
  @AddSig stored_order client_k_s params1
    = @AddSig reversed_order (with_BaseUrl client_k_s "http://data.mixpanel.com/api/2.0")
        (<["sig" := "stale"]> params2).
Proof.
  intros params1 params2. split.
  - apply (proj1 (AddSig_deterministic stored_order reversed_order)
             client_k_s params1 params2).
    intros key. vm_compute. reflexivity.
  - apply (proj2 (AddSig_deterministic stored_order reversed_order)).
    + intros key. vm_compute. reflexivity.
    + reflexivity.
Defined.

Lemma assign_lookup_other (pairs : list (string * string))
    (acc : gmap string string) key :
  key ∉ pairs.*1 →
  fold_left (λ params kv, <[kv.1 := kv.2]> params) pairs acc !! key = acc !! key.
Proof.
  revert acc. induction pairs as [|[k v] pairs IH]; intros acc Hk; simpl; [done|].
  rewrite fmap_cons, not_elem_of_cons in Hk. destruct Hk as [Hne Hk].
  rewrite IH by done. simpl in Hne. by rewrite lookup_insert_ne.
Qed.

Lemma assign_lookup_member (pairs : list (string * string))
    (acc : gmap string string) key value :
  NoDup pairs.*1 → (key, value) ∈ pairs →
  fold_left (λ params kv, <[kv.1 := kv.2]> params) pairs acc !! key = Some value.
Proof.
  revert acc. induction pairs as [|[k v] pairs IH]; intros acc Hnd Hin; simpl.
  - by apply elem_of_nil in Hin.
  - rewrite fmap_cons in Hnd. apply NoDup_cons in Hnd as [Hk Hnd].
    apply elem_of_cons in Hin as [[= -> ->]|Hin].
    + rewrite assign_lookup_other by done. apply lookup_insert_eq.
    + by apply IH.
Qed.

(** With distinct keys, the order of the assignments does not matter. *)
Lemma assign_all_order pairs1 pairs2 :
  NoDup pairs1.*1 → pairs1 ≡ₚ pairs2 → assign_all pairs1 = assign_all pairs2.
Proof.
  intros Hnd Hp. assert (NoDup pairs2.*1) as Hnd2 by by rewrite <- Hp.
  apply map_eq. intros key. unfold assign_all.
  destruct (decide (key ∈ pairs1.*1)) as [Hin|Hout].
  - apply list_elem_of_fmap in Hin as [[k v] [-> Hin]]. simpl.
    rewrite (assign_lookup_member pairs1 ∅ k v) by done.
    rewrite (assign_lookup_member pairs2 ∅ k v); [done|done|by rewrite <- Hp].
  - rewrite assign_lookup_other by done.
    rewrite assign_lookup_other; [done|by rewrite <- Hp].
Qed.

(** The same pairs assigned in two different orders sign alike. *)
Lemma AddSig_insertion_order (R1 R2 : MapRange) m pairs1 pairs2 :
  NoDup pairs1.*1 → pairs1 ≡ₚ pairs2 →
  @AddSig R1 m (assign_all pairs1) = @AddSig R2 m (assign_all pairs2).
Proof.
  intros Hnd Hp. rewrite (assign_all_order pairs1 pairs2) by done.
  apply AddSig_order.
Qed.

(** C3.  The old signature is taken out before anything is collected, so
    the signature does not cover itself ([AddSig] gives the same result on
    a set that already carries any [sig] entry), and signing an
    already-signed set again gives the same signed set and the same [sig],
    whatever order the keys come in at either signing. *)
Theorem AddSig_idempotent (R1 R2 : MapRange) m (params : gmap string string) :
  (∀ old, @AddSig R2 m (<["sig" := old]> params) = @AddSig R1 m params) ∧
  @AddSig R2 m (@AddSig R1 m params) = @AddSig R1 m params ∧
  @AddSig R2 m (@AddSig R1 m params) !! "sig" = @AddSig R1 m params !! "sig".
Proof.
  assert (∀ old, @AddSig R2 m (<["sig" := old]> params) = @AddSig R1 m params) as Hold.
  { intros old. rewrite (AddSig_order R2 R1), !AddSig_prepared.
    by rewrite prepared_insert_sig. }
  assert (@AddSig R2 m (@AddSig R1 m params) = @AddSig R1 m params) as Hidem.
  { rewrite (AddSig_order R2 R1). rewrite (AddSig_prepared m params) at 1.
    rewrite AddSig_prepared, prepared_insert_sig, prepared_idem.
    by rewrite AddSig_prepared. }
  split; [done|]. split; [done|]. by rewrite Hidem.
Qed.

(* ===================================================================== *)
(** * Expiry and the fields of a signed request                          *)
(* ===================================================================== *)

(** Five days are 432000 seconds, whatever the fraction of a second the
    clock is at. *)
Lemma ExpireInDays_default now :
  ExpireInDays now DEFAULT_EXPIRE_IN_DAYS = time_Unix now + 432000 ∧
  ExpireInDays now DEFAULT_EXPIRE_IN_DAYS = time_Unix (time_Add now (5 * (24 * time_Hour))).
Proof.
  unfold ExpireInDays, time_Unix, time_Add.
  change (wrap64 (wrap64 (time_Hour * DEFAULT_EXPIRE_IN_DAYS) * 24))
    with (432000 * 10 ^ 9).
  change (5 * (24 * time_Hour)) with (432000 * 10 ^ 9).
  split; [|done]. rewrite Z.div_add by lia. done.
Qed.

Lemma index_empty_iff (params : gmap string string) key :
  index params key = "" ↔ params !! key = None ∨ params !! key = Some "".
Proof.
  unfold index. destruct (params !! key) as [v|]; simpl.
  - split; [intros ->; by right | intros [?|[= ->]]; done].
  - split; [by left | done].
Qed.

Lemma AddExpire_lookup_other now (params : gmap string string) key :
  key ≠ "expire" → AddExpire now params !! key = params !! key.
Proof.
  intros Hne. unfold AddExpire. case_decide; [|done]. by rewrite lookup_insert_ne.
Qed.

(** C5.  [AddExpire] leaves the parameter set as it is when [expire] is
    present and not empty; when [expire] is absent or empty it sets it to
    the decimal digits of the Unix time of now plus five days (that is the
    Unix time of now plus 432000), and changes nothing else; in both cases
    every entry other than [expire] is as before. *)
Theorem AddExpire_spec (now : Z) (params : gmap string string) :
  (∀ value, params !! "expire" = Some value → value ≠ "" →
     AddExpire now params = params) ∧
  (params !! "expire" = None ∨ params !! "expire" = Some "" →
     AddExpire now params
     = <["expire" := fmt_Sprintf_d (time_Unix (time_Add now (5 * (24 * time_Hour))))]> params
     ∧ time_Unix (time_Add now (5 * (24 * time_Hour))) = time_Unix now + 432000) ∧
  (∀ key, key ≠ "expire" → AddExpire now params !! key = params !! key).
Proof.
  destruct (ExpireInDays_default now) as [Hsec Hdays].
  split; [|split]; [unfold AddExpire..|].
  - intros value Hv Hne. rewrite decide_False; [done|].
    rewrite index_empty_iff, Hv. intros [?|[= ?]]; done.
  - intros Hexp. rewrite decide_True by by apply index_empty_iff.
    split; [by rewrite Hdays | congruence].
  - apply AddExpire_lookup_other.
Qed.

Lemma AddExpire_spec_witness :
  let now := 1700000000 * 10 ^ 9 + 999999999 in
  AddExpire now {[ "expire" := "100"; "unit" := "day" ]}
    = {[ "expire" := "100"; "unit" := "day" ]} ∧
  AddExpire now {[ "expire" := ""; "unit" := "day" ]}
    = {[ "expire" := "1700432000"; "unit" := "day" ]} ∧
  AddExpire now {[ "unit" := "day" ]} !! "unit" = Some "day".
Proof.
  intros now. split; [|split].
  - apply (proj1 (AddExpire_spec now {[ "expire" := "100"; "unit" := "day" ]}) "100");
      [vm_compute; reflexivity | discriminate].
  - etransitivity.
    + apply (proj1 (proj2 (AddExpire_spec now {[ "expire" := ""; "unit" := "day" ]}))).
      right. vm_compute. reflexivity.
    + vm_compute. reflexivity.
  - etransitivity.
    + apply (proj2 (proj2 (AddExpire_spec now {[ "unit" := "day" ]})) "unit").
      discriminate.
    + vm_compute. reflexivity.
Defined.

Lemma pretty_N_go_nonempty x s : s ≠ "" → pretty_N_go x s ≠ "".
Proof.
  revert s. induction (N.lt_wf_0 x) as [x _ IH]; intros s Hs.
  assert (x = 0 ∨ 0 < x)%N as [->|Hpos] by lia.
  - by rewrite pretty_N_go_0.
  - rewrite pretty_N_go_step by done. apply IH; [|done].
    by apply N.div_lt.
Qed.

(** [%d] never prints nothing. *)
Lemma fmt_Sprintf_d_nonempty n : fmt_Sprintf_d n ≠ "".
Proof.
  assert (∀ p : positive, pretty p ≠ "") as Hpos.
  { intros p. unfold pretty, pretty_positive, pretty, pretty_N.
    rewrite decide_False by done.
    rewrite pretty_N_go_step by lia. by apply pretty_N_go_nonempty. }
  unfold fmt_Sprintf_d, pretty, pretty_Z. destruct n as [|p|p]; [done|apply Hpos|done].
Qed.

Lemma AddExpire_has_expire now (params : gmap string string) :
  ∃ value, AddExpire now params !! "expire" = Some value ∧ value ≠ "".
Proof.
  unfold AddExpire. case_decide as Hexp.
  - eexists. rewrite lookup_insert_eq. split; [done|]. apply fmt_Sprintf_d_nonempty.
  - exists (index params "expire"). split; [|done].
    unfold index in *. by destruct (params !! "expire").
Qed.

Lemma AddSig_lookup_other `{MapRange} m (params : gmap string string) key :
  key ≠ "sig" → key ≠ "api_key" → key ≠ "format" →
  AddSig m params !! key = params !! key.
Proof.
  intros. rewrite AddSig_prepared. unfold prepared. by simplify_map_eq.
Qed.

Lemma fmt_Sprintf_x_length bs :
  String.length (fmt_Sprintf_x bs) = (2 * length bs)%nat.
Proof. induction bs as [|b bs IH]; simpl; [done|]. rewrite IH. lia. Qed.

Lemma le_bytes_length n w : length (le_bytes n w) = n.
Proof. revert w. induction n as [|n IH]; intros w; simpl; [done|]. by rewrite IH. Qed.

(** A signature is 32 hexadecimal digits. *)
Lemma AddSig_sig_length `{MapRange} m (params : gmap string string) :
  ∃ sig, AddSig m params !! "sig" = Some sig ∧ String.length sig = 32%nat.
Proof.
  rewrite AddSig_prepared. eexists. split; [apply lookup_insert_eq|].
  rewrite fmt_Sprintf_x_length. unfold md5_Sum.
  by rewrite !length_app, !le_bytes_length.
Qed.

(** C6.  Once [AddExpire] and then [AddSig] have run, on any parameter
    set, the set holds [api_key] and [format] with the client's values
    (whatever the caller had put there), an [expire] entry that is not
    empty, and a [sig] entry, which is the digest of the canonical string
    of the other entries. *)
Theorem signed_fields (R : MapRange) m (now : Z) (params : gmap string string) :
  let signed := AddSig m (AddExpire now params) in
  signed !! "api_key" = Some (ApiKey (Auth m)) ∧
  signed !! "format" = Some (Format m) ∧
  (∃ value, signed !! "expire" = Some value ∧ value ≠ "") ∧
  signed !! "sig"
    = Some (fmt_Sprintf_x (md5_Sum (bytes_of_string
              (canonical m (prepared m (AddExpire now params)))))).
Proof.
  intros signed. subst signed. repeat split.
  - rewrite AddSig_prepared. unfold prepared. by simplify_map_eq.
  - rewrite AddSig_prepared. unfold prepared. by simplify_map_eq.
  - destruct (AddExpire_has_expire now params) as (value & Hv & Hne).
    exists value. split; [|done]. by rewrite AddSig_lookup_other.
  - rewrite AddSig_prepared. apply lookup_insert_eq.
Qed.

(** ** Construction *)

(** C9.  With an empty API key or an empty secret, [NewMixpanelAuth]
    returns no credential and the credential error, and [NewMixpanel] ends
    in [log.Fatal] with that error; with both fields non-empty they return
    the credential holding exactly the two strings, and the client around
    it.  Neither function takes a transport: no request is made. *)
Theorem construction_spec (apiKey secret : string) :
  (apiKey = "" ∨ secret = "" →
     NewMixpanelAuth apiKey secret = (None, Some "Mixpanel API credentials not found.") ∧
     NewMixpanel apiKey secret = Fatal "Mixpanel API credentials not found.") ∧
  (apiKey ≠ "" → secret ≠ "" →
     NewMixpanelAuth apiKey secret
       = (Some {| ApiKey := apiKey; Secret := secret |}, None) ∧
     NewMixpanel apiKey secret
       = Constructed {| Auth := {| ApiKey := apiKey; Secret := secret |};
                        Format := "json"; BaseUrl := "http://mixpanel.com/api/2.0" |}).
Proof.
  unfold NewMixpanel, NewMixpanelAuth. split.
  - intros [-> | ->]; [done|].
    by rewrite (bool_decide_eq_true_2 ("" = "")), orb_true_r.
  - intros Hk Hs. by rewrite !bool_decide_eq_false_2.
Qed.

Lemma construction_spec_witness :
  NewMixpanel "k" "" = Fatal "Mixpanel API credentials not found." ∧
  NewMixpanelAuth "" "s" = (None, Some "Mixpanel API credentials not found.") ∧
  NewMixpanel "k" "s" = Constructed client_k_s.
Proof.
  split; [|split].
  - apply (proj1 (construction_spec "k" "")). right. reflexivity.
  - apply (proj1 (construction_spec "" "s")). left. reflexivity.
  - apply (proj2 (construction_spec "k" "s")); discriminate.
Defined.

(* ===================================================================== *)
(** * Building the request                                               *)
(* ===================================================================== *)

Section RequestProperties.
Context `{R : MapRange, J : JsonMarshal, T : Transport}.

Lemma signed_lookup_event m now (params : gmap string string) :
  AddSig m (AddExpire now params) !! "event" = params !! "event".
Proof.
  rewrite AddSig_lookup_other by done. by apply AddExpire_lookup_other.
Qed.

Lemma range_keys_elem (params : gmap string string) key :
  key ∈ range_keys params ↔ is_Some (params !! key).
Proof.
  rewrite range_keys_perm, list_elem_of_fmap. split.
  - intros [[k v] [-> Hin]]. apply elem_of_map_to_list in Hin. by eexists.
  - intros [v Hv]. exists (key, v). split; [done|]. by apply elem_of_map_to_list.
Qed.

(** Once [encode_event] is through, [MakeRequest] signs and sends. *)
Lemma MakeRequest_signs m now action params encoded :
  encode_event params = (encoded, None) →
  MakeRequest m now action params
  = (AddSig m (AddExpire now encoded),
     http_get (request_uri m action (AddSig m (AddExpire now encoded)))).
Proof. intros Henc. unfold MakeRequest. by rewrite Henc. Qed.

Lemma encode_event_absent_or_empty (params : gmap string string) :
  params !! "event" = None ∨ params !! "event" = Some "" →
  encode_event params = (delete "event" params, None).
Proof.
  intros Hev. unfold encode_event, index.
  destruct Hev as [-> | ->]; [done|].
  by rewrite andb_comm.
Qed.

Lemma encode_event_present (params : gmap string string) event :
  params !! "event" = Some event → event ≠ "" →
  encode_event params
  = match json_Marshal_strings (strings_Split event ",") with
    | (_, Some err) => (delete "event" params, Some err)
    | (bytes, None) => (<["event" := bytes]> params, None)
    end.
Proof.
  intros Hev Hne. unfold encode_event, index. rewrite Hev.
  rewrite (bool_decide_eq_true_2 (is_Some (Some event))) by by eexists.
  cbn [default negb andb].
  rewrite (bool_decide_eq_false_2 (event = "")) by done. cbn [negb].
  destruct (json_Marshal_strings _) as [bytes [err|]]; [done|].
  by rewrite insert_delete_eq.
Qed.

(** C10.  In [MakeRequest], an [event] entry that is the empty string is
    deleted and not put back: the call goes on exactly as it does on the
    set without that entry, and neither the signed set nor the keys the
    query string is written from hold [event].  An [event] entry that is
    present and not empty is split on commas and JSON-encoded, and the
    encoding is what the signed request holds under [event] (when the
    encoder reports an error, the call returns it, with the entry
    deleted).  Without an [event] entry there is none afterwards either. *)
Theorem MakeRequest_event m (now : Z) action (params : gmap string string) :
  (params !! "event" = Some "" →
     let signed := AddSig m (AddExpire now (delete "event" params)) in
     MakeRequest m now action params
       = (signed, http_get (request_uri m action signed)) ∧
     signed !! "event" = None ∧ "event" ∉ range_keys signed) ∧
  (∀ event bytes,
     params !! "event" = Some event → event ≠ "" →
     json_Marshal_strings (strings_Split event ",") = (bytes, None) →
     let signed := AddSig m (AddExpire now (<["event" := bytes]> params)) in
     MakeRequest m now action params
       = (signed, http_get (request_uri m action signed)) ∧
     signed !! "event" = Some bytes) ∧
  (∀ event bytes err,
     params !! "event" = Some event → event ≠ "" →
     json_Marshal_strings (strings_Split event ",") = (bytes, Some err) →
     MakeRequest m now action params = (delete "event" params, ("", Some err))) ∧
  (params !! "event" = None →
     (MakeRequest m now action params).1 !! "event" = None).
Proof.
  repeat split.
  - apply MakeRequest_signs, encode_event_absent_or_empty. by right.
  - by rewrite signed_lookup_event, lookup_delete_eq.
  - rewrite range_keys_elem, signed_lookup_event, lookup_delete_eq. by intros [? [=]].
  - apply MakeRequest_signs. rewrite (encode_event_present params event) by done.
    by match goal with Hm : json_Marshal_strings _ = _ |- _ => rewrite Hm end.
  - by rewrite signed_lookup_event, lookup_insert_eq.
  - intros event bytes err Hev Hne Hm. unfold MakeRequest.
    rewrite (encode_event_present params event) by done. by rewrite Hm.
  - intros Hev. rewrite (MakeRequest_signs m now action params (delete "event" params)).
    + simpl. by rewrite signed_lookup_event, lookup_delete_eq.
    + apply encode_event_absent_or_empty. by left.
Qed.

End RequestProperties.

Lemma MakeRequest_event_witness :
  (@MakeRequest stored_order marshal_strings (canned "{}") client_k_s 0 "events"
     {[ "event" := ""; "unit" := "day" ]}).1 !! "event" = None ∧
  (@MakeRequest stored_order marshal_strings (canned "{}") client_k_s 0 "events"
     {[ "event" := "signup,login" ]}).1 !! "event"
    = Some (quoted "['signup','login']") ∧
  (@MakeRequest stored_order marshal_strings (canned "{}") client_k_s 0 "events"
     {[ "unit" := "day" ]}).1 !! "event" = None.
Proof.
  split; [|split].
  - destruct (proj1 (@MakeRequest_event stored_order marshal_strings (canned "{}")
        client_k_s 0 "events" {[ "event" := ""; "unit" := "day" ]}))
      as (Hcall & Hnone & _); [vm_compute; reflexivity|].
    rewrite Hcall. exact Hnone.
  - destruct (proj1 (proj2 (@MakeRequest_event stored_order marshal_strings (canned "{}")
        client_k_s 0 "events" {[ "event" := "signup,login" ]}))
        "signup,login" (quoted "['signup','login']"))
      as (Hcall & Hsome); [vm_compute; reflexivity | discriminate
                          | vm_compute; reflexivity |].
    rewrite Hcall. exact Hsome.
  - apply (proj2 (proj2 (proj2 (@MakeRequest_event stored_order marshal_strings
        (canned "{}") client_k_s 0 "events" {[ "unit" := "day" ]})))).
    vm_compute. reflexivity.
Defined.

(* ===================================================================== *)
(** * Decoding the responses                                             *)
(* ===================================================================== *)

Section EndpointProperties.
Context `{R : MapRange, J : JsonMarshal, T : Transport}.

Lemma export_line_step `{U : JsonUnmarshal ExportQueryResult} s results log :
  export_line (results, log) s
  = ((results ++ option_list (valid_record s))%list,
     (log ++ option_list (complaint s))%list).
Proof.
  unfold export_line, valid_record, complaint.
  destruct (decide (s = "")) as [Hs|Hs]; [by rewrite !app_nil_r|].
  destruct (json_Unmarshal s zero) as [result [e|]]; simpl; by rewrite app_nil_r.
Qed.

Lemma omap_cons_option_list {A B} (f : A → option B) x l :
  omap f (x :: l) = (option_list (f x) ++ omap f l)%list.
Proof. simpl. by destruct (f x). Qed.

(** The loop over the lines appends, in order, the record of every line
    that has one and the complaint about every line that has one. *)
Lemma export_lines `{U : JsonUnmarshal ExportQueryResult} lines results log :
  fold_left export_line lines (results, log)
  = ((results ++ omap valid_record lines)%list, (log ++ omap complaint lines)%list).
Proof.
  revert results log. induction lines as [|s lines IH]; intros results log.
  - simpl. by rewrite !app_nil_r.
  - cbn [fold_left]. rewrite export_line_step, IH, !omap_cons_option_list.
    by rewrite !(assoc_L app).
Qed.

Lemma ExportQuery_body `{U : JsonUnmarshal ExportQueryResult} m now params signed body :
  MakeRequest (with_BaseUrl m export_host) now "export" params = (signed, (body, None)) →
  ExportQuery m now params
  = Outcome (with_BaseUrl m export_host) signed
      (omap complaint (strings_Split body (ascii_of_byte 10)))
      (omap valid_record (strings_Split body (ascii_of_byte 10))) None.
Proof.
  intros Hreq. unfold ExportQuery. rewrite Hreq. by rewrite export_lines.
Qed.

Lemma PeopleQuery_body `{U : JsonUnmarshal (gmap string iface)} m now params signed body :
  MakeRequest (with_BaseUrl m main_host) now "engage" params = (signed, (body, None)) →
  PeopleQuery m now params
  = Outcome (with_BaseUrl m main_host) signed []
      (json_Unmarshal body (zero : gmap string iface)).1 None.
Proof.
  intros Hreq. unfold PeopleQuery. rewrite Hreq.
  by destruct (json_Unmarshal body zero).
Qed.

(** The four siblings of [PeopleQuery] hand the decoder's error on. *)
Lemma EventQuery_decode_error `{U : JsonUnmarshal EventQueryResult}
    m now params signed body :
  MakeRequest (with_BaseUrl m main_host) now "events/properties" params
    = (signed, (body, None)) →
  out_err (EventQuery m now params) = (json_Unmarshal body (zero : EventQueryResult)).2.
Proof.
  intros Hreq. unfold EventQuery. rewrite Hreq.
  by destruct (json_Unmarshal body zero).
Qed.

Lemma SegmentationQuery_decode_error `{U : JsonUnmarshal SegmentationQueryResult}
    m now params signed body :
  MakeRequest (with_BaseUrl m main_host) now "segmentation" params
    = (signed, (body, None)) →
  out_err (SegmentationQuery m now params)
  = (json_Unmarshal body (zero : SegmentationQueryResult)).2.
Proof.
  intros Hreq. unfold SegmentationQuery. rewrite Hreq.
  by destruct (json_Unmarshal body zero).
Qed.

Lemma TopEvents_decode_error `{U : JsonUnmarshal TopEventsResult}
    m now params signed body :
  MakeRequest (with_BaseUrl m main_host) now "events/top" params
    = (signed, (body, None)) →
  out_err (TopEvents m now params) = (json_Unmarshal body (zero : TopEventsResult)).2.
Proof.
  intros Hreq. unfold TopEvents. rewrite Hreq.
  by destruct (json_Unmarshal body zero).
Qed.

Lemma MostCommonEventsLast31Days_decode_error `{U : JsonUnmarshal CommonEventsResult}
    m now params signed body :
  MakeRequest (with_BaseUrl m main_host) now "events/names" params
    = (signed, (body, None)) →
  out_err (MostCommonEventsLast31Days m now params)
  = (json_Unmarshal body (zero : CommonEventsResult)).2.
Proof.
  intros Hreq. unfold MostCommonEventsLast31Days. rewrite Hreq.
  by destruct (json_Unmarshal body zero).
Qed.

(** [PeopleQuery] reports success whatever the decoder said. *)
Lemma PeopleQuery_no_decode_error `{U : JsonUnmarshal (gmap string iface)}
    m now params signed body :
  MakeRequest (with_BaseUrl m main_host) now "engage" params = (signed, (body, None)) →
  out_err (PeopleQuery m now params) = None.
Proof. intros Hreq. by rewrite (PeopleQuery_body m now params signed body). Qed.

End EndpointProperties.

(** With the reference encoder and a canned body, every request gets
    through and comes back with that body. *)
Lemma MakeRequest_canned (R : MapRange) body m now action params :
  ∃ signed,
    @MakeRequest R marshal_strings (canned body) m now action params
    = (signed, (body, None)).
Proof.
  unfold MakeRequest.
  assert (∃ encoded, @encode_event marshal_strings params = (encoded, None))
    as [encoded ->]; [|by eexists].
  unfold encode_event. destruct (_ && _); by eexists.
Qed.

(** C7.  Whatever the decoder and the transport: when the request comes
    back with a body, [ExportQuery] succeeds, and returns, in the order of
    the lines of the body, the record of every line that is neither blank
    nor malformed, each decoded on its own; it logs one complaint, quoting
    the line, for every malformed line.  With the reference decoder, the
    body whose four lines are the event [a], a blank line, the text
    [invalid] and the event [b] with property [x] = 1 yields exactly the
    records of [a] and [b], and one complaint. *)
Theorem ExportQuery_decodes :
  (∀ (R : MapRange) (J : JsonMarshal) (T : Transport)
     (U : JsonUnmarshal ExportQueryResult) m now params signed body,
     MakeRequest (with_BaseUrl m export_host) now "export" params
       = (signed, (body, None)) →
     let lines := strings_Split body (ascii_of_byte 10) in
     let o := ExportQuery m now params in
     out_err o = None ∧
     out_value o = omap valid_record lines ∧
     out_log o = omap complaint lines) ∧
  (∀ (R : MapRange) m now params,
     let o := @ExportQuery R marshal_strings (canned export_body) unmarshal_export
                m now params in
     strings_Split export_body (ascii_of_byte 10)
       = [quoted "{'event':'a','properties':{}}"; ""; "invalid";
          quoted "{'event':'b','properties':{'x':1}}"] ∧
     out_err o = None ∧
     out_value o = [ {| Event := "a"; Properties := ∅ |};
                     {| Event := "b"; Properties := {[ "x" := INumber "1" ]} |} ] ∧
     out_log o = [ "BAD EVENT json: syntax error -- 'invalid'" +:+ newline ]).
Proof.
  split.
  - intros R J T U m now params signed body Hreq lines o. subst o lines.
    by rewrite (ExportQuery_body m now params signed body Hreq).
  - intros R m now params o. subst o.
    destruct (MakeRequest_canned R export_body (with_BaseUrl m export_host) now
                "export" params) as [signed Hreq].
    rewrite (ExportQuery_body m now params signed export_body Hreq).
    cbn [out_err out_value out_log]. repeat split; vm_compute; reflexivity.
Qed.

Lemma ExportQuery_decodes_witness :
  let params : gmap string string := {[ "from_date" := "2014-01-01" ]} in
  let o := @ExportQuery stored_order marshal_strings (canned export_body)
             unmarshal_export client_k_s 0 params in
  out_err o = None ∧
  out_value o = omap valid_record (strings_Split export_body (ascii_of_byte 10)) ∧
  out_log o = omap complaint (strings_Split export_body (ascii_of_byte 10)).
Proof.
  intros params.
  apply (proj1 ExportQuery_decodes stored_order marshal_strings (canned export_body)
           unmarshal_export client_k_s 0 params
           (@MakeRequest stored_order marshal_strings (canned export_body)
              (with_BaseUrl client_k_s export_host) 0 "export" params).1
           export_body).
  vm_compute. reflexivity.
Defined.

(** C8.  When the request [UserInfo] makes through [PeopleQuery] comes
    back with a body that decodes to a mapping whose [results] entry is an
    empty list, [UserInfo] returns an empty mapping and no error; when
    [results] is a list whose first element is a mapping with a
    [$properties] mapping, it returns that mapping and no error. *)
Theorem UserInfo_results (R : MapRange) (J : JsonMarshal) (T : Transport)
    (U : JsonUnmarshal (gmap string iface)) m (now : Z) (id signed_body : string)
    (signed : gmap string string) (decoded : gmap string iface) :
  MakeRequest (with_BaseUrl m main_host) now "engage" {[ "distinct_id" := id ]}
    = (signed, (signed_body, None)) →
  (json_Unmarshal signed_body (zero : gmap string iface)).1 = decoded →
  (field decoded "results" = ISlice [] →
     returned (UserInfo m now id) = Some (∅, None)) ∧
  (∀ user rest properties,
     field decoded "results" = ISlice (IMap user :: rest) →
     field user "$properties" = IMap properties →
     returned (UserInfo m now id) = Some (properties, None)).
Proof.
  intros Hreq Hdec. unfold UserInfo.
  rewrite (PeopleQuery_body m now _ signed signed_body Hreq).
  cbn [out_value out_err out_client out_params out_log]. rewrite Hdec. split.
  - by intros ->.
  - intros user rest properties -> Hprops. cbn [assert_slice assert_map].
    by rewrite Hprops.
Qed.

Lemma UserInfo_results_witness :
  returned (@UserInfo stored_order marshal_strings (canned (quoted "{'results':[]}"))
              unmarshal_object client_k_s 0 "u1") = Some (∅, None) ∧
  returned (@UserInfo stored_order marshal_strings
              (canned (quoted
                 "{'results':[{'$distinct_id':'u1','$properties':{'$city':'Oslo'}},{}]}"))
              unmarshal_object client_k_s 0 "u1")
    = Some ({[ "$city" := IString "Oslo" ]}, None).
Proof.
  split.
  - eapply (proj1 (UserInfo_results stored_order marshal_strings
                     (canned (quoted "{'results':[]}")) unmarshal_object
                     client_k_s 0 "u1" (quoted "{'results':[]}") _ _
                     ltac:(vm_compute; reflexivity) eq_refl)).
    vm_compute. reflexivity.
  - eapply (proj2 (UserInfo_results stored_order marshal_strings
                     (canned (quoted
                        "{'results':[{'$distinct_id':'u1','$properties':{'$city':'Oslo'}},{}]}"))
                     unmarshal_object client_k_s 0 "u1" _ _ _
                     ltac:(vm_compute; reflexivity) eq_refl)).
    + vm_compute. reflexivity.
    + vm_compute. reflexivity.
Defined.

(** C4.  The claim fails for [PeopleQuery]: on the body [invalid], which
    the decoder rejects with a syntax error, the call reports no failure,
    and returns the empty mapping it started from; this whatever the
    client, the clock, the parameters and the order of the keys.  (The
    four other endpoints hand the error on: [EventQuery_decode_error],
    [SegmentationQuery_decode_error], [TopEvents_decode_error],
    [MostCommonEventsLast31Days_decode_error].) *)
Theorem PeopleQuery_malformed_body (R : MapRange) m (now : Z)
    (params : gmap string string) :
  let o := @PeopleQuery R marshal_strings (canned "invalid") unmarshal_object
             m now params in
  json_Unmarshal "invalid" (zero : gmap string iface) = (∅, Some "json: syntax error") ∧
  out_err o = None ∧
  out_value o = ∅.
Proof.
  intros o. subst o.
  destruct (MakeRequest_canned R "invalid" (with_BaseUrl m main_host) now
              "engage" params) as [signed Hreq].
  rewrite (PeopleQuery_body m now params signed "invalid" Hreq).
  repeat split.
Qed.

(** On that body, the same decoder makes [EventQuery]'s sibling shape
    fail, and [UserInfo], which trusts [PeopleQuery], panics. *)
Lemma ExportQuery_line_malformed :
  (json_Unmarshal "invalid" (zero : ExportQueryResult)).2 = Some "json: syntax error".
Proof. vm_compute. reflexivity. Qed.

Lemma UserInfo_malformed_body_panics (R : MapRange) m now id :
  @UserInfo R marshal_strings (canned "invalid") unmarshal_object m now id = Panics.
Proof.
  destruct (MakeRequest_canned R "invalid" (with_BaseUrl m main_host) now
              "engage" {[ "distinct_id" := id ]}) as [signed Hreq].
  unfold UserInfo. by rewrite (PeopleQuery_body m now _ signed "invalid" Hreq).
Qed.

(** A transport error, on the other hand, reaches the caller of every
    endpoint, [PeopleQuery] included. *)
Lemma PeopleQuery_transport_error (R : MapRange) m now params :
  out_err (@PeopleQuery R marshal_strings unreachable unmarshal_object m now params)
  = Some "dial tcp: connection refused".
Proof.
  unfold PeopleQuery, MakeRequest.
  assert (∃ encoded, @encode_event marshal_strings params = (encoded, None))
    as [encoded ->].
  { unfold encode_event. destruct (_ && _); by eexists. }
  reflexivity.
Qed.

(* ===================================================================== *)
(** * Further properties: expiry arithmetic                              *)
(* ===================================================================== *)

#[local] Set Warnings "-clear-no-such-hyp".

Lemma wrap64_small x : (- 2 ^ 63 ≤ x < 2 ^ 63)%Z → wrap64 x = x.
Proof. intros Hx. unfold wrap64. rewrite Z.mod_small; lia. Qed.

Lemma time_Unix_add_seconds now secs :
  time_Unix (time_Add now (secs * 10 ^ 9)) = time_Unix now + secs.
Proof. unfold time_Unix, time_Add. by rewrite Z.div_add by lia. Qed.

(** X1.  As long as the duration fits an int64 (up to 106751 days either
    way), [ExpireInDays] is the Unix time of now plus 86400 seconds a day,
    whatever fraction of a second the clock is at. *)
Theorem ExpireInDays_exact (now days : Z) :
  (-106751 ≤ days ≤ 106751)%Z →
  ExpireInDays now days = time_Unix now + 86400 * days.
Proof.
  intros Hd. unfold ExpireInDays, time_Hour.
  change (3600 * 10 ^ 9) with 3600000000000.
  rewrite (wrap64_small (3600000000000 * days)) by lia.
  rewrite wrap64_small by lia.
  replace (3600000000000 * days * 24) with (86400 * days * 10 ^ 9) by lia.
  apply time_Unix_add_seconds.
Qed.

Lemma ExpireInDays_exact_witness :
  ExpireInDays (1700000000 * 10 ^ 9 + 5) 106751 = 1700000000 + 86400 * 106751 ∧
  ExpireInDays 999999999 (-1) = 0 + 86400 * -1.
Proof.
  split.
  - apply (ExpireInDays_exact (1700000000 * 10 ^ 9 + 5) 106751). lia.
  - apply (ExpireInDays_exact 999999999 (-1)). lia.
Defined.

(** X2.  [ExpireInHours] is exact up to 2562047 hours either way, and
    within the range of [ExpireInDays] a day is 24 hours:
    [ExpireInDays now d] is [ExpireInHours now (24 * d)]. *)
Theorem ExpireInHours_exact (now hours : Z) :
  ((-2562047 ≤ hours ≤ 2562047)%Z →
     ExpireInHours now hours = time_Unix now + 3600 * hours) ∧
  (∀ days, (-106751 ≤ days ≤ 106751)%Z → hours = 24 * days →
     ExpireInDays now days = ExpireInHours now hours).
Proof.
  assert ((-2562047 ≤ hours ≤ 2562047)%Z →
          ExpireInHours now hours = time_Unix now + 3600 * hours) as Hh.
  { intros Hh. unfold ExpireInHours, time_Hour.
    change (3600 * 10 ^ 9) with 3600000000000.
    rewrite wrap64_small by lia.
    replace (3600000000000 * hours) with (3600 * hours * 10 ^ 9) by lia.
    apply time_Unix_add_seconds. }
  split; [done|]. intros days Hd ->.
  rewrite Hh by lia. unfold ExpireInDays, time_Hour.
  change (3600 * 10 ^ 9) with 3600000000000.
  rewrite (wrap64_small (3600000000000 * days)) by lia.
  rewrite wrap64_small by lia.
  replace (3600000000000 * days * 24) with (3600 * (24 * days) * 10 ^ 9) by lia.
  apply time_Unix_add_seconds.
Qed.

Lemma ExpireInHours_exact_witness :
  ExpireInHours 1500000000 2562047 = 1 + 3600 * 2562047 ∧
  ExpireInDays 1500000000 7 = ExpireInHours 1500000000 168.
Proof.
  split.
  - apply (proj1 (ExpireInHours_exact 1500000000 2562047)). lia.
  - apply (proj2 (ExpireInHours_exact 1500000000 168) 7); [lia | reflexivity].
Defined.

(** X3.  Past that range the int64 multiplication wraps: from 106752 to
    213503 days the duration comes out negative and the expiry
    [ExpireInDays] returns lies before the current time. *)
Theorem ExpireInDays_overflow (now days : Z) :
  (106752 ≤ days ≤ 213503)%Z →
  (ExpireInDays now days < time_Unix now)%Z.
Proof.
  intros Hd. unfold ExpireInDays, time_Hour.
  change (3600 * 10 ^ 9) with 3600000000000.
  rewrite (wrap64_small (3600000000000 * days)) by lia.
  assert (wrap64 (3600000000000 * days * 24) ≤ (-1) * 10 ^ 9)%Z as Hw.
  { unfold wrap64.
    change (2 ^ 63) with 9223372036854775808.
    change (2 ^ 64) with 18446744073709551616.
    change (10 ^ 9) with 1000000000.
    pose proof (Z.div_mod (3600000000000 * days * 24 + 9223372036854775808)
                  18446744073709551616 ltac:(lia)) as Hdm.
    pose proof (Z.mod_pos_bound (3600000000000 * days * 24 + 9223372036854775808)
                  18446744073709551616 ltac:(lia)) as Hb.
    lia. }
  unfold time_Unix, time_Add.
  assert ((now + wrap64 (3600000000000 * days * 24)) `div` 10 ^ 9
          ≤ (now + (-1) * 10 ^ 9) `div` 10 ^ 9)%Z as Hle.
  { apply Z.div_le_mono; lia. }
  rewrite Z.div_add in Hle by lia. lia.
Qed.

Lemma ExpireInDays_overflow_witness :
  (ExpireInDays (1700000000 * 10 ^ 9) 106752 < time_Unix (1700000000 * 10 ^ 9))%Z.
Proof. apply ExpireInDays_overflow. lia. Defined.

(* ===================================================================== *)
(** * Further properties: signing                                        *)
(* ===================================================================== *)

Lemma string_app_cons c (s1 s2 : string) :
  String c s1 +:+ s2 = String c (s1 +:+ s2).
Proof. reflexivity. Qed.

Lemma string_app_nil_l (s : string) : "" +:+ s = s.
Proof. reflexivity. Qed.

Lemma string_app_assoc (s1 s2 s3 : string) :
  (s1 +:+ s2) +:+ s3 = s1 +:+ (s2 +:+ s3).
Proof.
  induction s1 as [|c s1 IH]; [done|]. by rewrite !string_app_cons, IH.
Qed.

Lemma string_app_nil_r (s : string) : s +:+ "" = s.
Proof. induction s as [|c s IH]; [done|]. by rewrite string_app_cons, IH. Qed.

(** X4.  [AddExpire] applied a second time changes nothing, at whatever
    later time: once an expiry is in, it stays. *)
Theorem AddExpire_idempotent (now1 now2 : Z) (params : gmap string string) :
  AddExpire now2 (AddExpire now1 params) = AddExpire now1 params.
Proof.
  destruct (AddExpire_has_expire now1 params) as (value & Hv & Hne).
  unfold AddExpire at 1. rewrite decide_False; [done|].
  unfold index. by rewrite Hv.
Qed.

(** X5.  [AddSig] touches three keys only: the keys of the signed set are
    those of the input plus [sig], [api_key] and [format], and every other
    key keeps its value. *)
Theorem AddSig_frame (R : MapRange) m (params : gmap string string) :
  dom (AddSig m params) = {[ "sig"; "api_key"; "format" ]} ∪ dom params ∧
  (∀ key, key ≠ "sig" → key ≠ "api_key" → key ≠ "format" →
     AddSig m params !! key = params !! key).
Proof.
  split.
  - rewrite AddSig_prepared. unfold prepared.
    rewrite !dom_insert_L, dom_delete_L. apply set_eq. intros key.
    destruct (decide (key = "sig")) as [->|]; set_solver.
  - intros key ? ? ?. by apply AddSig_lookup_other.
Qed.

Lemma AddSig_frame_witness :
  @AddSig stored_order client_k_s {[ "unit" := "day"; "sig" := "stale" ]} !! "unit"
  = ({[ "unit" := "day"; "sig" := "stale" ]} : gmap string string) !! "unit".
Proof.
  apply (proj2 (AddSig_frame stored_order client_k_s
                  {[ "unit" := "day"; "sig" := "stale" ]}) "unit"); discriminate.
Defined.

(** X6.  A signed set verifies: whoever takes the [sig] entry out of what
    [AddSig] produced and recomputes the digest of the canonical string of
    the rest, in whatever order the keys come, finds the [sig] value. *)
Theorem AddSig_verifies (R1 R2 : MapRange) m (params : gmap string string) :
  @AddSig R1 m params !! "sig"
  = Some (fmt_Sprintf_x (md5_Sum (bytes_of_string
            (@canonical R2 m (delete "sig" (@AddSig R1 m params)))))).
Proof.
  rewrite AddSig_prepared, delete_insert_eq, lookup_insert_eq.
  rewrite (delete_id _ _ (prepared_no_sig m params)).
  by rewrite (canonical_order R1 R2).
Qed.

Lemma hex_digit_lower n : (0 ≤ n < 16)%Z → is_lower_hex (hex_digit n) = true.
Proof.
  intros Hn.
  assert (n ∈ (Z.of_nat <$> seq 0 16)) as Hin.
  { apply list_elem_of_fmap. exists (Z.to_nat n). split; [lia|].
    apply elem_of_seq. lia. }
  cbn in Hin. repeat (apply elem_of_cons in Hin as [->|Hin]; [reflexivity|]).
  by apply elem_of_nil in Hin.
Qed.

Lemma fmt_Sprintf_x_lower bs :
  Forall (λ b, 0 ≤ b < 256)%Z bs →
  string_forallb is_lower_hex (fmt_Sprintf_x bs) = true.
Proof.
  induction 1 as [|b bs Hb _ IH]; simpl; [done|].
  rewrite IH, andb_true_r. apply andb_true_intro. split.
  - apply hex_digit_lower. rewrite Z.shiftr_div_pow2 by lia.
    change (2 ^ 4)%Z with 16%Z. split; [apply Z.div_pos; lia|].
    apply Z.div_lt_upper_bound; lia.
  - apply hex_digit_lower. change 15%Z with (Z.ones 4).
    rewrite Z.land_ones by lia. apply Z.mod_pos_bound. lia.
Qed.

Lemma le_bytes_range n w : Forall (λ b, 0 ≤ b < 256)%Z (le_bytes n w).
Proof.
  revert w. induction n as [|n IH]; intros w; simpl; [done|].
  constructor; [|apply IH].
  change 255%Z with (Z.ones 8). rewrite Z.land_ones by lia.
  apply Z.mod_pos_bound. lia.
Qed.

(** X7.  The [sig] value [AddSig] stores is always 32 characters long and
    made of the digits 0-9 and a-f only. *)
Theorem AddSig_sig_format (R : MapRange) m (params : gmap string string) :
  ∃ sig, AddSig m params !! "sig" = Some sig ∧
         String.length sig = 32%nat ∧
         string_forallb is_lower_hex sig = true.
Proof.
  rewrite AddSig_prepared. eexists. split; [apply lookup_insert_eq|]. split.
  - rewrite fmt_Sprintf_x_length. unfold md5_Sum.
    by rewrite !length_app, !le_bytes_length.
  - apply fmt_Sprintf_x_lower. unfold md5_Sum.
    repeat (apply Forall_app; split); apply le_bytes_range.
Qed.

Lemma range_keys_NoDup `{MapRange} (params : gmap string string) :
  NoDup (range_keys params).
Proof. rewrite range_keys_perm. apply NoDup_fst_map_to_list. Qed.

(** The canonical string, from any ascending list of the keys. *)
Lemma canonical_of_keys `{MapRange} m (params : gmap string string) keys :
  Sorted string_le keys → NoDup keys → (∀ key, key ∈ keys ↔ key ∈ dom params) →
  canonical m params = write_pairs params keys +:+ Secret (Auth m).
Proof.
  intros Hs Hnd Hdom. unfold canonical. f_equal. f_equal.
  apply sort_Strings_unique; [done|].
  apply NoDup_Permutation; [done|apply range_keys_NoDup|].
  intros key. by rewrite Hdom, range_keys_elem, elem_of_dom.
Qed.

(** X8.  The canonical string has no separators and escapes nothing, so
    different parameter sets can share a signature: for every client and
    all values [v] and [w], the one-entry set with [x] = [v] followed by
    [y=] and [w] signs like the two-entry set with [x] = [v] and [y] = [w]. *)
Theorem AddSig_ambiguous (R : MapRange) m (v w : string) :
  let params1 : gmap string string := {[ "x" := v +:+ "y=" +:+ w ]} in
  let params2 : gmap string string := <["y" := w]> {[ "x" := v ]} in
  params1 ≠ params2 ∧
  AddSig m params1 !! "sig" = AddSig m params2 !! "sig".
Proof.
  intros params1 params2. split.
  - intros Heq. apply (f_equal (λ p : gmap string string, p !! "y")) in Heq.
    subst params1 params2. by simplify_map_eq.
  - rewrite !AddSig_prepared, !lookup_insert_eq. do 4 f_equal.
    rewrite (canonical_of_keys m (prepared m params1) ["api_key"; "format"; "x"]).
    + rewrite (canonical_of_keys m (prepared m params2) ["api_key"; "format"; "x"; "y"]).
      * unfold write_pairs, index, prepared. subst params1 params2.
        cbn [fold_left]. simplify_map_eq. cbn [default].
        rewrite !string_app_assoc. reflexivity.
      * apply (bool_decide_unpack _). vm_compute. reflexivity.
      * apply (bool_decide_unpack _). vm_compute. reflexivity.
      * intros key. unfold prepared. subst params2.
        rewrite !dom_insert_L, dom_delete_L, dom_insert_L, dom_singleton_L.
        rewrite !elem_of_cons, elem_of_nil. set_solver.
    + apply (bool_decide_unpack _). vm_compute. reflexivity.
    + apply (bool_decide_unpack _). vm_compute. reflexivity.
    + intros key. unfold prepared. subst params1.
      rewrite !dom_insert_L, dom_delete_L, dom_singleton_L.
      rewrite !elem_of_cons, elem_of_nil. set_solver.
Qed.

(* ===================================================================== *)
(** * Further properties: the request line                               *)
(* ===================================================================== *)

Lemma drop_last_snoc (s : string) c : drop_last (s +:+ String c "") = s.
Proof.
  induction s as [|a s IH]; [done|].
  rewrite string_app_cons. simpl.
  destruct (s +:+ String c "") as [|b rest] eqn:Hs.
  - by destruct s.
  - by rewrite IH.
Qed.

Section RequestLine.
Context `{R : MapRange}.

Lemma query_string_join (params : gmap string string) key keys acc :
  fold_left
    (λ buffer key,
       buffer +:+ (key +:+ "=" +:+ url_QueryEscape (index params key) +:+ "&"))
    (key :: keys) acc
  = acc +:+ join_with "&" (pair_text params <$> (key :: keys)) +:+ "&".
Proof.
  revert key acc. induction keys as [|key' keys IH]; intros key acc.
  - cbn [fold_left fmap list_fmap join_with]. unfold pair_text.
    by rewrite !string_app_assoc.
  - lazymatch goal with
    | |- fold_left ?f (?a :: ?l) ?b = _ =>
        change (fold_left f (a :: l) b) with (fold_left f l (f b a))
    end.
    rewrite IH. cbn [fmap list_fmap join_with]. unfold pair_text.
    by rewrite !string_app_assoc.
Qed.

Lemma range_keys_nil (params : gmap string string) :
  range_keys params = [] ↔ params = ∅.
Proof.
  split.
  - intros Hnil. apply map_to_list_empty_iff.
    apply (fmap_nil_inv fst). apply Permutation_nil_r.
    by rewrite <- range_keys_perm, Hnil.
  - intros ->. apply Permutation_nil_r.
    by rewrite range_keys_perm, map_to_list_empty.
Qed.

(** X9.  The request line: for a parameter set that is not empty, the
    URI is the base URL, a slash, the action, a question mark, and one
    [key=escaped value] pair per key joined by ampersands, with no
    ampersand at the end.  For the empty set, it is the base URL, a slash
    and the action, without the question mark. *)
Theorem request_uri_shape m action (params : gmap string string) :
  (params ≠ ∅ →
     request_uri m action params
     = BaseUrl m +:+ "/" +:+ action +:+ "?" +:+
       join_with "&" (pair_text params <$> range_keys params)) ∧
  (params = ∅ → request_uri m action params = BaseUrl m +:+ "/" +:+ action).
Proof.
  unfold request_uri, query_string. split.
  - intros Hne. destruct (range_keys params) as [|key keys] eqn:Hkeys.
    { by apply range_keys_nil in Hkeys. }
    rewrite query_string_join, string_app_nil_l.
    rewrite <- !string_app_assoc. apply drop_last_snoc.
  - intros ->. rewrite (proj2 (range_keys_nil ∅) eq_refl). cbn [fold_left].
    rewrite <- !string_app_assoc, string_app_nil_r. apply drop_last_snoc.
Qed.

Lemma count_byte_app c (s1 s2 : string) :
  count_byte c (s1 +:+ s2) = (count_byte c s1 + count_byte c s2)%nat.
Proof.
  induction s1 as [|a s1 IH]; [done|].
  rewrite string_app_cons. cbn [count_byte]. rewrite IH. lia.
Qed.

Lemma url_QueryEscape_no_ampersand (s : string) :
  count_byte "&" (url_QueryEscape s) = 0%nat.
Proof.
  induction s as [|c s IH]; [done|].
  transitivity (count_byte "&" (url_QueryEscape s)); [|done]. clear IH.
  destruct c as [[] [] [] [] [] [] [] []]; reflexivity.
Qed.

Lemma query_string_count (params : gmap string string) keys acc :
  (∀ key, key ∈ keys → count_byte "&" key = 0%nat) →
  count_byte "&"
    (fold_left
       (λ buffer key,
          buffer +:+ (key +:+ "=" +:+ url_QueryEscape (index params key) +:+ "&"))
       keys acc)
  = (count_byte "&" acc + length keys)%nat.
Proof.
  revert acc. induction keys as [|key keys IH]; intros acc Hkeys.
  - simpl. lia.
  - cbn [fold_left]. rewrite IH by (intros k Hk; apply Hkeys; by right).
    rewrite !count_byte_app, url_QueryEscape_no_ampersand.
    rewrite (Hkeys key) by by left.
    change (count_byte "&" "=") with 0%nat. change (count_byte "&" "&") with 1%nat.
    cbn [length]. lia.
Qed.

(** X10.  Values cannot add parameters: when no key holds an ampersand,
    the query string [MakeRequest] writes has exactly one ampersand per
    entry, whatever the values are. *)
Theorem query_string_separators (params : gmap string string) :
  (∀ key, key ∈ dom params → count_byte "&" key = 0%nat) →
  count_byte "&" (query_string params) = size params.
Proof.
  intros Hkeys. unfold query_string. rewrite query_string_count.
  - simpl. rewrite range_keys_perm, length_fmap. apply length_map_to_list.
  - intros key Hin. apply Hkeys. by rewrite elem_of_dom, <- range_keys_elem.
Qed.

End RequestLine.

Lemma request_uri_shape_witness :
  @request_uri stored_order client_k_s "engage" {[ "where" := "a b&c" ]}
  = "http://mixpanel.com/api/2.0/engage?where=a+b%26c" ∧
  @request_uri stored_order client_k_s "engage" ∅ = "http://mixpanel.com/api/2.0/engage".
Proof.
  split.
  - etransitivity.
    + apply (proj1 (@request_uri_shape stored_order client_k_s "engage"
                      {[ "where" := "a b&c" ]})).
      intros Heq. apply (f_equal (λ p : gmap string string, p !! "where")) in Heq.
      vm_compute in Heq. discriminate.
    + vm_compute. reflexivity.
  - apply (proj2 (@request_uri_shape stored_order client_k_s "engage" ∅)). reflexivity.
Defined.

Lemma query_string_separators_witness :
  count_byte "&" (@query_string stored_order {[ "a" := "1&2&3"; "b" := "&" ]}) = 2%nat.
Proof.
  transitivity (size ({[ "a" := "1&2&3"; "b" := "&" ]} : gmap string string));
    [|vm_compute; reflexivity].
  apply (@query_string_separators stored_order {[ "a" := "1&2&3"; "b" := "&" ]}).
  intros key Hin. apply elem_of_dom in Hin.
  destruct (decide (key = "a")) as [->|]; [reflexivity|].
  destruct (decide (key = "b")) as [->|]; [reflexivity|].
  exfalso. rewrite lookup_insert_ne, lookup_singleton_ne in Hin by done.
  by destruct Hin.
Defined.

(* ===================================================================== *)
(** * Further properties: a parameter map used again                     *)
(* ===================================================================== *)

Lemma prepared_same_credentials m1 m2 (params : gmap string string) :
  Auth m2 = Auth m1 → Format m2 = Format m1 →
  prepared m2 params = prepared m1 params.
Proof. intros Ha Hf. unfold prepared. by rewrite Ha, Hf. Qed.

(** Signing what is already signed, with the same credential and format,
    changes nothing. *)
Lemma AddSig_resign (R1 R2 : MapRange) m1 m2 (params : gmap string string) :
  Auth m2 = Auth m1 → Format m2 = Format m1 →
  @AddSig R2 m2 (@AddSig R1 m1 params) = @AddSig R1 m1 params.
Proof.
  intros Ha Hf. apply AddSig_entries; [|by rewrite Ha].
  rewrite (AddSig_prepared m1 params), prepared_insert_sig.
  rewrite (prepared_same_credentials m1 m2) by done. apply prepared_idem.
Qed.

Lemma AddExpire_keeps now (params : gmap string string) value :
  params !! "expire" = Some value → value ≠ "" → AddExpire now params = params.
Proof.
  intros Hv Hne. unfold AddExpire. rewrite decide_False; [done|].
  unfold index. by rewrite Hv.
Qed.

(** X11.  [MakeRequest] writes into the caller's map, and a map that went
    through one call (with no event, or an empty one) comes out of any
    later call unchanged: the expiry of the first call is kept, not
    renewed, and so is the signature, whatever the clock, the action, the
    base URL, the transport and the order of the keys at the second call. *)
Theorem MakeRequest_reuse (R1 R2 : MapRange) (J1 J2 : JsonMarshal)
    (T1 T2 : Transport) m1 m2 (now1 now2 : Z) action1 action2
    (params : gmap string string) :
  params !! "event" = None ∨ params !! "event" = Some "" →
  Auth m2 = Auth m1 → Format m2 = Format m1 →
  let used := (@MakeRequest R1 J1 T1 m1 now1 action1 params).1 in
  (@MakeRequest R2 J2 T2 m2 now2 action2 used).1 = used ∧
  used !! "expire" = AddExpire now1 params !! "expire".
Proof.
  intros Hev Ha Hf used. subst used.
  rewrite (MakeRequest_signs m1 now1 action1 params (delete "event" params))
    by by apply encode_event_absent_or_empty.
  cbn [fst].
  set (signed := @AddSig R1 m1 (AddExpire now1 (delete "event" params))).
  assert (signed !! "event" = None) as Hnone.
  { subst signed. by rewrite signed_lookup_event, lookup_delete_eq. }
  assert (signed !! "expire" = AddExpire now1 params !! "expire") as Hexp.
  { subst signed. rewrite AddSig_lookup_other by done.
    unfold AddExpire, index. rewrite lookup_delete_ne by done.
    case_decide; [by rewrite !lookup_insert_eq|].
    by rewrite lookup_delete_ne. }
  split; [|done].
  rewrite (MakeRequest_signs m2 now2 action2 signed signed).
  - cbn [fst].
    destruct (AddExpire_has_expire now1 params) as (value & Hv & Hne).
    rewrite (AddExpire_keeps now2 signed value) by (by rewrite ?Hexp).
    subst signed. by apply AddSig_resign.
  - rewrite encode_event_absent_or_empty by by left.
    by rewrite delete_id.
Qed.

Lemma MakeRequest_reuse_witness :
  let params : gmap string string := {[ "unit" := "day" ]} in
  let used := (@MakeRequest stored_order marshal_strings (canned "{}")
                 client_k_s (1700000000 * 10 ^ 9) "events" params).1 in
  (@MakeRequest reversed_order marshal_strings unreachable
     (with_BaseUrl client_k_s export_host) (1800000000 * 10 ^ 9) "export" used).1 = used ∧
  used !! "expire" = AddExpire (1700000000 * 10 ^ 9) params !! "expire".
Proof.
  intros params.
  apply (MakeRequest_reuse stored_order reversed_order marshal_strings marshal_strings
           (canned "{}") unreachable client_k_s (with_BaseUrl client_k_s export_host)
           (1700000000 * 10 ^ 9) (1800000000 * 10 ^ 9) "events" "export" params).
  - left. vm_compute. reflexivity.
  - reflexivity.
  - reflexivity.
Defined.

Section Reuse.
Context `{R : MapRange, J : JsonMarshal, T : Transport}.

(** X12.  An event list does not survive a second call: the first call
    leaves the JSON encoding of the list under [event], and a later call
    on the same map splits that encoding on its commas and encodes the
    pieces again. *)
Theorem MakeRequest_event_reencoded m (now1 now2 : Z) action1 action2
    (params : gmap string string) event once twice :
  params !! "event" = Some event → event ≠ "" →
  json_Marshal_strings (strings_Split event ",") = (once, None) → once ≠ "" →
  json_Marshal_strings (strings_Split once ",") = (twice, None) →
  let used := (MakeRequest m now1 action1 params).1 in
  used !! "event" = Some once ∧
  (MakeRequest m now2 action2 used).1 !! "event" = Some twice.
Proof.
  intros Hev Hne Honce Hne1 Htwice used. subst used.
  rewrite (MakeRequest_signs m now1 action1 params (<["event" := once]> params)).
  2:{ rewrite (encode_event_present params event) by done. by rewrite Honce. }
  cbn [fst].
  assert (AddSig m (AddExpire now1 (<["event" := once]> params)) !! "event"
          = Some once) as Hused.
  { by rewrite signed_lookup_event, lookup_insert_eq. }
  split; [done|].
  erewrite MakeRequest_signs.
  2:{ rewrite (encode_event_present _ once) by done. by rewrite Htwice. }
  cbn [fst]. by rewrite signed_lookup_event, lookup_insert_eq.
Qed.

End Reuse.

Lemma MakeRequest_event_reencoded_witness :
  let params : gmap string string := {[ "event" := "a,b" ]} in
  let used := (@MakeRequest stored_order marshal_strings (canned "{}")
                 client_k_s 0 "events" params).1 in
  used !! "event" = Some (quoted "['a','b']") ∧
  (@MakeRequest stored_order marshal_strings (canned "{}") client_k_s 0 "events" used).1
    !! "event" = Some (quoted "['[\'a\'','\'b\']']").
Proof.
  intros params.
  apply (@MakeRequest_event_reencoded stored_order marshal_strings (canned "{}")
           client_k_s 0 0 "events" "events" params "a,b").
  - vm_compute. reflexivity.
  - discriminate.
  - vm_compute. reflexivity.
  - discriminate.
  - vm_compute. reflexivity.
Defined.

(* ===================================================================== *)
(** * Further properties: the endpoints                                  *)
(* ===================================================================== *)

Section Endpoints.
Context `{R : MapRange, J : JsonMarshal, T : Transport}.
Context `{UE : JsonUnmarshal EventQueryResult, UX : JsonUnmarshal ExportQueryResult,
          UP : JsonUnmarshal (gmap string iface),
          US : JsonUnmarshal SegmentationQueryResult,
          UT : JsonUnmarshal TopEventsResult, UC : JsonUnmarshal CommonEventsResult}.


(** X14.  No endpoint reads the base URL the client held before the
    call, and each leaves its own behind: the export host after
    [ExportQuery], the main host after the others, with the credential
    and the format untouched, whether the call succeeds or not. *)
Theorem endpoints_base_url m (now : Z) (params : gmap string string) (url : string) :
  (EventQuery (with_BaseUrl m url) now params = EventQuery m now params ∧
   out_client (EventQuery m now params) = with_BaseUrl m main_host) ∧
  (ExportQuery (with_BaseUrl m url) now params = ExportQuery m now params ∧
   out_client (ExportQuery m now params) = with_BaseUrl m export_host) ∧
  (PeopleQuery (with_BaseUrl m url) now params = PeopleQuery m now params ∧
   out_client (PeopleQuery m now params) = with_BaseUrl m main_host) ∧
  (SegmentationQuery (with_BaseUrl m url) now params = SegmentationQuery m now params ∧
   out_client (SegmentationQuery m now params) = with_BaseUrl m main_host) ∧
  (TopEvents (with_BaseUrl m url) now params = TopEvents m now params ∧
   out_client (TopEvents m now params) = with_BaseUrl m main_host) ∧
  (MostCommonEventsLast31Days (with_BaseUrl m url) now params
     = MostCommonEventsLast31Days m now params ∧
   out_client (MostCommonEventsLast31Days m now params) = with_BaseUrl m main_host) ∧
  (∀ id, UserInfo (with_BaseUrl m url) now id = UserInfo m now id).
Proof.
  repeat split;
    unfold EventQuery, ExportQuery, PeopleQuery, SegmentationQuery, TopEvents,
      MostCommonEventsLast31Days;
    try (destruct (MakeRequest _ _ _ _) as [signed [bytes [e|]]]; [done|]).
  - by destruct (json_Unmarshal bytes zero).
  - by destruct (fold_left _ _ _).
  - by destruct (json_Unmarshal bytes zero).
  - by destruct (json_Unmarshal bytes zero).
  - by destruct (json_Unmarshal bytes zero).
  - by destruct (json_Unmarshal bytes zero).
Qed.

End Endpoints.


(* ===================================================================== *)
(** * Further properties: export lines                                   *)
(* ===================================================================== *)

Lemma strings_Split_not_nil s sep : strings_Split s sep ≠ [].
Proof.
  induction s as [|c s IH]; cbn [strings_Split]; [done|].
  case_decide; [done|]. by destruct (strings_Split s sep).
Qed.

(** Splitting is done piece by piece: the pieces of a text cut at a
    separator are the pieces of its two parts. *)
Lemma strings_Split_app s1 s2 sep :
  strings_Split (s1 +:+ String sep s2) sep
  = (strings_Split s1 sep ++ strings_Split s2 sep)%list.
Proof.
  induction s1 as [|c s1 IH].
  - rewrite string_app_nil_l. cbn [strings_Split]. by rewrite decide_True.
  - rewrite string_app_cons. cbn [strings_Split]. rewrite IH.
    case_decide; [done|].
    pose proof (strings_Split_not_nil s1 sep).
    by destruct (strings_Split s1 sep).
Qed.

Section ExportLines.
Context `{U : JsonUnmarshal ExportQueryResult}.

Lemma line_accounted (s : string) :
  (length (option_list (valid_record s)) + length (option_list (complaint s)))%nat
  = if nonblank s then 1%nat else 0%nat.
Proof.
  unfold valid_record, complaint, nonblank.
  destruct (decide (s = "")) as [Hs|Hs].
  - by rewrite bool_decide_eq_true_2.
  - rewrite bool_decide_eq_false_2 by done.
    by destruct (json_Unmarshal s zero) as [result [e|]].
Qed.

Lemma lines_accounted (lines : list string) :
  (length (omap valid_record lines) + length (omap complaint lines))%nat
  = length (filter (λ s, nonblank s = true) lines).
Proof.
  induction lines as [|s lines IH]; [done|].
  rewrite !omap_cons_option_list, !length_app, filter_cons.
  pose proof (line_accounted s) as Hs.
  destruct (nonblank s); [rewrite decide_True by done|rewrite decide_False by done];
    cbn [length]; lia.
Qed.

(** X15.  Every line of an export is accounted for once: the records
    returned and the complaints logged together are as many as the lines
    that are not blank. *)
Theorem ExportQuery_accounts `{R : MapRange, J : JsonMarshal, T : Transport}
    m (now : Z) (params signed : gmap string string) (body : string) :
  MakeRequest (with_BaseUrl m export_host) now "export" params
    = (signed, (body, None)) →
  let o := ExportQuery m now params in
  (length (out_value o) + length (out_log o))%nat
  = length (filter (λ s, nonblank s = true) (strings_Split body (ascii_of_byte 10))).
Proof.
  intros Hreq o. subst o.
  rewrite (ExportQuery_body m now params signed body Hreq).
  apply lines_accounted.
Qed.

(** X16.  Export decoding goes line by line: the records (and the
    complaints) for two bodies put together with a line feed between
    them are those of the first body followed by those of the second.  In
    particular a line feed at the end of the body changes nothing. *)
Theorem ExportQuery_concatenates (R : MapRange) m (now : Z)
    (params : gmap string string) (body1 body2 : string) :
  let run body := @ExportQuery R marshal_strings (canned body) U m now params in
  let both := body1 +:+ String (ascii_of_byte 10) body2 in
  out_value (run both) = (out_value (run body1) ++ out_value (run body2))%list ∧
  out_log (run both) = (out_log (run body1) ++ out_log (run body2))%list ∧
  out_value (run (body1 +:+ newline)) = out_value (run body1).
Proof.
  intros run both. subst run both. cbn beta.
  destruct (MakeRequest_canned R (body1 +:+ String (ascii_of_byte 10) body2)
              (with_BaseUrl m export_host) now "export" params) as [s12 H12].
  destruct (MakeRequest_canned R body1
              (with_BaseUrl m export_host) now "export" params) as [s1 H1].
  destruct (MakeRequest_canned R body2
              (with_BaseUrl m export_host) now "export" params) as [s2 H2].
  destruct (MakeRequest_canned R (body1 +:+ newline)
              (with_BaseUrl m export_host) now "export" params) as [s3 H3].
  rewrite (ExportQuery_body m now params s12 _ H12).
  rewrite (ExportQuery_body m now params s1 _ H1).
  rewrite (ExportQuery_body m now params s2 _ H2).
  rewrite (ExportQuery_body m now params s3 _ H3).
  cbn [out_value out_log]. unfold newline.
  rewrite !strings_Split_app, !omap_app. repeat split.
  cbn [strings_Split omap list_omap]. unfold valid_record at 2.
  rewrite decide_True by done. by rewrite app_nil_r.
Qed.

Lemma line_feeds_blank n :
  Forall (λ s, s = "") (strings_Split (line_feeds n) (ascii_of_byte 10)).
Proof.
  unfold line_feeds. induction n as [|n IH].
  - by constructor.
  - cbn [replicate string_of_list_ascii strings_Split].
    rewrite decide_True by done. by constructor.
Qed.

(** X17.  A body with no text in it (empty, or line feeds only) is a
    successful export of no records, and nothing is logged: the decoder
    is never run on a blank line. *)
Theorem ExportQuery_blank_body (R : MapRange) m (now : Z)
    (params : gmap string string) (n : nat) :
  let o := @ExportQuery R marshal_strings (canned (line_feeds n)) U m now params in
  out_value o = [] ∧ out_log o = [] ∧ out_err o = None.
Proof.
  intros o. subst o.
  destruct (MakeRequest_canned R (line_feeds n)
              (with_BaseUrl m export_host) now "export" params) as [signed Hreq].
  rewrite (ExportQuery_body m now params signed _ Hreq).
  cbn [out_value out_log out_err].
  pose proof (line_feeds_blank n) as Hblank.
  induction Hblank as [|s lines -> _ IH]; [done|].
  rewrite !omap_cons_option_list. unfold valid_record at 1, complaint at 1.
  rewrite !decide_True by done. cbn [option_list app].
  destruct IH as (-> & -> & _). done.
Qed.

End ExportLines.

Lemma ExportQuery_accounts_witness :
  let o := @ExportQuery stored_order marshal_strings (canned export_body)
             unmarshal_export client_k_s 0 ∅ in
  (length (out_value o) + length (out_log o))%nat
  = length (filter (λ s, nonblank s = true)
              (strings_Split export_body (ascii_of_byte 10))).
Proof.
  intros o.
  apply (@ExportQuery_accounts unmarshal_export stored_order marshal_strings
           (canned export_body) client_k_s 0 ∅
           (@MakeRequest stored_order marshal_strings (canned export_body)
              (with_BaseUrl client_k_s export_host) 0 "export" ∅).1
           export_body).
  vm_compute. reflexivity.
Defined.

(* ===================================================================== *)
(** * Further properties: [UserInfo] and construction from the environment *)
(* ===================================================================== *)

Section UserInfoPanics.
Context `{R : MapRange, J : JsonMarshal, T : Transport}.
Context `{UP : JsonUnmarshal (gmap string iface)}.

(** X18.  [UserInfo] checks nothing but the length of [results]: when the
    response was received and what it decoded to has no [results] entry,
    or one that is not a list, the call panics; it panics too when the
    first element of the list is not a mapping with a [$properties]
    mapping. *)
Theorem UserInfo_panics m (now : Z) (id body : string)
    (signed : gmap string string) (decoded : gmap string iface) :
  MakeRequest (with_BaseUrl m main_host) now "engage" {[ "distinct_id" := id ]}
    = (signed, (body, None)) →
  (json_Unmarshal body (zero : gmap string iface)).1 = decoded →
  (decoded !! "results" = None → UserInfo m now id = Panics) ∧
  ((∀ items, decoded !! "results" ≠ Some (ISlice items)) →
     UserInfo m now id = Panics) ∧
  (∀ first rest,
     decoded !! "results" = Some (ISlice (first :: rest)) →
     (∀ user properties,
        first = IMap user → user !! "$properties" ≠ Some (IMap properties)) →
     UserInfo m now id = Panics).
Proof.
  intros Hreq Hdec. unfold UserInfo.
  rewrite (PeopleQuery_body m now _ signed body Hreq).
  cbn [out_value out_err out_client out_params out_log]. rewrite Hdec.
  unfold field. split; [|split].
  - by intros ->.
  - intros Hnot. destruct (decoded !! "results") as [[]|]; try done.
    by destruct (Hnot items).
  - intros first rest -> Hfirst. simpl.
    destruct first as [| | | | |user]; try done. simpl.
    destruct (user !! "$properties") as [[| | | | |properties]|] eqn:Hp; try done.
    by destruct (Hfirst user properties).
Qed.

End UserInfoPanics.

Lemma UserInfo_panics_witness :
  @UserInfo stored_order marshal_strings (canned "{}") unmarshal_object
    client_k_s 0 "u1" = Panics ∧
  @UserInfo stored_order marshal_strings
    (canned (quoted "{'results':[{'$distinct_id':'u1'}]}"))
    unmarshal_object client_k_s 0 "u1" = Panics.
Proof.
  pose (sent := λ body,
          (@MakeRequest stored_order marshal_strings (canned body)
             (with_BaseUrl client_k_s main_host) 0 "engage"
             {[ "distinct_id" := "u1" ]}).1).
  split.
  - assert (@MakeRequest stored_order marshal_strings (canned "{}")
              (with_BaseUrl client_k_s main_host) 0 "engage" {[ "distinct_id" := "u1" ]}
            = (sent "{}", ("{}", None))) as Hreq by (vm_compute; reflexivity).
    apply (proj1 (@UserInfo_panics stored_order marshal_strings (canned "{}")
                    unmarshal_object client_k_s 0 "u1" "{}" _ _ Hreq eq_refl)).
    vm_compute. reflexivity.
  - set (body := quoted "{'results':[{'$distinct_id':'u1'}]}").
    assert (@MakeRequest stored_order marshal_strings (canned body)
              (with_BaseUrl client_k_s main_host) 0 "engage" {[ "distinct_id" := "u1" ]}
            = (sent body, (body, None))) as Hreq by (vm_compute; reflexivity).
    apply (proj2 (proj2 (@UserInfo_panics stored_order marshal_strings (canned body)
                    unmarshal_object client_k_s 0 "u1" body _ _ Hreq eq_refl))
             (IMap {[ "$distinct_id" := IString "u1" ]}) []).
    + vm_compute. reflexivity.
    + intros user properties [= <-] Heq. vm_compute in Heq. discriminate.
Defined.

(** X19.  [NewMixpanelFromEnv] stops the process exactly when one of the
    two environment variables is unset or empty; a client it returns
    holds the two values, both non-empty, with format [json] and the main
    host as base URL. *)
Theorem NewMixpanelFromEnv_spec (getenv : string → string) :
  ((∃ logged, NewMixpanelFromEnv getenv = Fatal logged) ↔
     getenv "MIXPANEL_API_KEY" = "" ∨ getenv "MIXPANEL_SECRET" = "") ∧
  (∀ m, NewMixpanelFromEnv getenv = Constructed m →
     ApiKey (Auth m) = getenv "MIXPANEL_API_KEY" ∧
     Secret (Auth m) = getenv "MIXPANEL_SECRET" ∧
     ApiKey (Auth m) ≠ "" ∧ Secret (Auth m) ≠ "" ∧
     Format m = "json" ∧ BaseUrl m = "http://mixpanel.com/api/2.0").
Proof.
  unfold NewMixpanelFromEnv, NewMixpanel, NewMixpanelAuth.
  destruct (decide (getenv "MIXPANEL_API_KEY" = "")) as [Hk|Hk].
  - rewrite (bool_decide_eq_true_2 _ Hk). cbn [orb].
    split; [split; [intros _; by left | intros _; by eexists] | intros m [=]].
  - rewrite (bool_decide_eq_false_2 _ Hk). cbn [orb].
    destruct (decide (getenv "MIXPANEL_SECRET" = "")) as [Hs|Hs].
    + rewrite (bool_decide_eq_true_2 _ Hs).
      split; [split; [intros _; by right | intros _; by eexists] | intros m [=]].
    + rewrite (bool_decide_eq_false_2 _ Hs).
      split; [split; [intros [? [=]] | intros [?|?]; done] | intros m [= <-]; done].
Qed.

Lemma NewMixpanelFromEnv_spec_witness :
  let getenv := λ name : string,
    if decide (name = "MIXPANEL_API_KEY") then "k"
    else if decide (name = "MIXPANEL_SECRET") then "s" else "" in
  ApiKey (Auth client_k_s) = getenv "MIXPANEL_API_KEY" ∧
  Secret (Auth client_k_s) = getenv "MIXPANEL_SECRET" ∧
  ApiKey (Auth client_k_s) ≠ "" ∧ Secret (Auth client_k_s) ≠ "" ∧
  Format client_k_s = "json" ∧ BaseUrl client_k_s = "http://mixpanel.com/api/2.0".
Proof.
  intros getenv.
  apply (proj2 (NewMixpanelFromEnv_spec getenv) client_k_s). reflexivity.
Defined.
